(** * mandelmovie.c: a shallow embedding and its specification

    The program renders a zooming sequence of Mandelbrot frames: [main]
    parses options, plans a geometric zoom, forks one child per frame range,
    and each child renders its frames with [compute_image], which splits the
    rows among threads running [compute_image_region].  Pixels are computed
    with [iterations_at_point] and [iteration_to_color].

    Modelling choices:
    - C [int] is [Z]; C [double] is a primitive IEEE binary64 [float]
      (exactly the C arithmetic).  The C library's [pow] is a parameter of
      the zoom trajectory, constrained only by the special cases of C's
      Annex F.
    - The image is a store from pixel coordinates to the colour written by
      [setPixelCOLOR]; threads are lists of pixel writes and their
      concurrent execution is any permutation of all the writes.
    - The observable behaviour of [main] is a list of events per process
      (parent and forked children). *)

From Stdlib Require Import ZArith List Lia Bool String Ascii Permutation.
From Stdlib Require Import Floats.
Import ListNotations.
Set Warnings "-inexact-float".

Open Scope Z_scope.

(* ------------------------------------------------------------------ *)
(** ** Escape-time evaluator and colour mapper *)

Module Pixel.

Local Open Scope float_scope.

(** C's implicit conversion of an [int] (|n| < 2^63) to [double]. *)
Definition double_of_int (n : Z) : float :=
  if (n <? 0)%Z then - of_uint63 (Uint63.of_Z (- n))
  else of_uint63 (Uint63.of_Z n).

(** The guard of the [while] loop: [x * x + y * y <= 4]. *)
Definition in_disk (x y : float) : bool := (x * x + y * y <=? 4).

(** One iteration [z <- z^2 + c]:
    [xt = x * x - y * y + x0; yt = 2 * x * y + y0]. *)
Definition step (x0 y0 : float) (z : float * float) : float * float :=
  let (x, y) := z in (x * x - y * y + x0, 2 * x * y + y0).

(** The [while] loop of [iterations_at_point]; the fuel bounds the number
    of passes, which never exceeds [max] since [iter] starts at 0 and the
    loop stops at [iter < max] failing. *)
Fixpoint iter_loop (fuel : nat) (x0 y0 : float) (z : float * float)
    (iter max : Z) : Z :=
  match fuel with
  | O => iter
  | S fuel' =>
      if in_disk (fst z) (snd z) && (iter <? max)%Z
      then iter_loop fuel' x0 y0 (step x0 y0 z) (iter + 1)%Z max
      else iter
  end.

(** [int iterations_at_point(double x, double y, int max)] *)
Definition iterations_at_point (x y : float) (max : Z) : Z :=
  iter_loop (Z.to_nat max) x y (x, y) 0 max.

(** Two's-complement wrap-around of a 32-bit [int]. *)
Definition wrap32 (v : Z) : Z := ((v + 2 ^ 31) mod 2 ^ 32 - 2 ^ 31)%Z.

(** [(unsigned char)((iters * k) % 256)]: C's [%] truncates ([Z.rem]),
    the cast to [unsigned char] reduces modulo 256. *)
Definition channel (k iters : Z) : Z := (Z.rem (wrap32 (iters * k)) 256 mod 256)%Z.

(** [int iteration_to_color(int iters, int max)] *)
Definition iteration_to_color (iters max : Z) : Z :=
  if (iters =? max)%Z then 0%Z
  else Z.lor (Z.lor (Z.shiftl (channel 7 iters) 16) (Z.shiftl (channel 13 iters) 8))
         (channel 17 iters).

(** The red, green and blue bytes of a packed colour. *)
Definition red (c : Z) : Z := Z.land (Z.shiftr c 16) 255.
Definition green (c : Z) : Z := Z.land (Z.shiftr c 8) 255.
Definition blue (c : Z) : Z := Z.land c 255.

(** The orbit of the escape-time iteration: [orbit x y k] is the value of
    [z] after [k] updates, starting at [z = c = (x, y)]. *)
Fixpoint orbit (x y : float) (k : nat) : float * float :=
  match k with
  | O => (x, y)
  | S k' => step x y (orbit x y k')
  end.

End Pixel.


(* ------------------------------------------------------------------ *)
(** ** Integer ranges *)

(** The values of [for (int k = a; k < b; ++k)], in order. *)
Definition zrange (a b : Z) : list Z :=
  map (fun k => a + Z.of_nat k) (seq 0 (Z.to_nat (b - a))).

(* ------------------------------------------------------------------ *)
(** ** Frame renderer: [compute_image] and [compute_image_region] *)

Module Render.

Local Open Scope float_scope.

(** The fields of [imgRawImage] that the renderer reads. *)
Record imgRawImage := mkImg { width : Z; height : Z }.

(** [ThreadData]: the arguments of one worker thread. *)
Record ThreadData := mkThreadData {
  img : imgRawImage;
  xmin : float; xmax : float; ymin : float; ymax : float;
  max_iterations : Z;
  start_row : Z; end_row : Z }.

(** The pixel store of an image: the colour last written at [(i, j)] by
    [setPixelCOLOR], if any ([None] where the store still holds whatever
    [initRawImage] left there, which the renderer never reads). *)
Definition buffer := Z * Z -> option Z.

(** One call [setPixelCOLOR(img, i, j, color)]. *)
Definition write := ((Z * Z) * Z)%type.

Definition key_eqb (k k' : Z * Z) : bool :=
  (fst k =? fst k')%Z && (snd k =? snd k')%Z.

Definition set_pixel (b : buffer) (w : write) : buffer :=
  fun k => if key_eqb k (fst w) then Some (snd w) else b k.

Definition apply_writes (b : buffer) (ws : list write) : buffer :=
  fold_left set_pixel ws b.

(** [x] and [y] of pixel [(i, j)] in [compute_image_region]:
    [xmin + i * (xmax - xmin) / width], and the same for [y]. *)
Definition pixel_x (d : ThreadData) (i : Z) : float :=
  xmin d + Pixel.double_of_int i * (xmax d - xmin d) / Pixel.double_of_int (width (img d)).
Definition pixel_y (d : ThreadData) (j : Z) : float :=
  ymin d + Pixel.double_of_int j * (ymax d - ymin d) / Pixel.double_of_int (height (img d)).

Definition pixel_color (d : ThreadData) (i j : Z) : Z :=
  Pixel.iteration_to_color
    (Pixel.iterations_at_point (pixel_x d i) (pixel_y d j) (max_iterations d))
    (max_iterations d).

(** [void *compute_image_region(void *arg)]: the pixel writes of one
    thread, row by row, in program order. *)
Definition compute_image_region (d : ThreadData) : list write :=
  flat_map (fun j => map (fun i => ((i, j), pixel_color d i j))
                         (zrange 0 (width (img d))))
           (zrange (start_row d) (end_row d)).

(** The [ThreadData] that [compute_image] fills for thread [t]. *)
Definition thread_data (im : imgRawImage) (x0 x1 y0 y1 : float)
    (max num_threads t : Z) : ThreadData :=
  let rows_per_thread := Z.quot (height im) num_threads in
  mkThreadData im x0 x1 y0 y1 max (t * rows_per_thread)
    (if (t =? num_threads - 1)%Z then height im else (t + 1) * rows_per_thread).

Definition threads (im : imgRawImage) (x0 x1 y0 y1 : float) (max num_threads : Z)
    : list ThreadData :=
  map (thread_data im x0 x1 y0 y1 max num_threads) (zrange 0 num_threads).

(** [compute_image(img, xmin, xmax, ymin, ymax, max, num_threads)] started
    on a store [b0] ends with store [b]: the threads run concurrently and
    are all joined, so the writes happen in some interleaving of the
    threads' writes (a permutation of all of them). *)
Definition compute_image (im : imgRawImage) (b0 : buffer) (x0 x1 y0 y1 : float)
    (max num_threads : Z) (b : buffer) : Prop :=
  exists ws,
    Permutation ws (List.concat (map compute_image_region (threads im x0 x1 y0 y1 max num_threads)))
    /\ forall k, b k = apply_writes b0 ws k.

End Render.


(* ------------------------------------------------------------------ *)
(** ** [main]: options, frame ranges, processes *)

Module Main.

(** [printf("%d", n)] *)
Definition digit (d : Z) : ascii := ascii_of_nat (48 + Z.to_nat d).

Fixpoint digits (fuel : nat) (n : Z) (acc : string) : string :=
  match fuel with
  | O => acc
  | S fuel' =>
      if (n <? 10)%Z then String (digit n) acc
      else digits fuel' (n / 10) (String (digit (n mod 10)) acc)
  end.

Definition string_of_int (n : Z) : string :=
  if (n <? 0)%Z then ("-" ++ digits 64 (- n) "")%string else digits 64 n "".

(** Reading a numeral back: the value of the decimal digits of [s], most
    significant first, after digits worth [v]; the inverse of [%d] on
    non-negative numbers, used to reason about file names. *)
Fixpoint dec_value (s : string) (v : Z) : Z :=
  match s with
  | EmptyString => v
  | String ch s' => dec_value s' (v * 10 + (Z.of_nat (nat_of_ascii ch) - 48))
  end.

Definition nl : string := String (ascii_of_nat 10) EmptyString.

(** One option as [getopt] returns it, with its argument already converted
    by [atof] or [atoi] (the string of [-o] as given). *)
Inductive opt :=
  | Opt_x (v : float) | Opt_y (v : float) | Opt_s (v : float)
  | Opt_W (n : Z) | Opt_H (n : Z) | Opt_m (n : Z) | Opt_o (s : string)
  | Opt_p (n : Z) | Opt_n (n : Z) | Opt_t (n : Z) | Opt_P | Opt_h.

(** The local variables of [main] that the options set. *)
Record config := mkConfig {
  xcenter : float; ycenter : float; xscale : float;
  image_width : Z; image_height : Z; max_iterations : Z;
  num_images : Z; num_processes : Z; num_threads : Z;
  outfile_base : string; preview_final : bool }.

(** Observable actions of one process. *)
Inductive event :=
  | EvStdout (s : string)
  | EvStderr (s : string)
  | EvHeader (c : config)        (** the [printf("mandelmovie: ...")] line *)
  | EvAlloc (w h : Z)            (** [initRawImage(w, h)] *)
  | EvStore (file : string)      (** [storeJpegImageFile(img, file)] *)
  | EvFree                       (** [freeRawImage(img)] *)
  | EvWait (p : Z)               (** [waitpid(pids[p], NULL, 0)] *)
  | EvFault                      (** a trap: integer division by zero *)
  | EvExit (code : Z).

(** How a child ended, as [waitpid] could report it. *)
Inductive wait_status := Exited (code : Z) | Signaled (signal : Z).

(** The parent's trace and, in order of [p], each forked child's trace. *)
Record run := mkRun { parent : list event; children : list (list event) }.

Definition EXIT_FAILURE : Z := 1.

Definition help_text : list string :=
  ["Usage: mandelmovie [options]"; "Options:";
   "  -x <coord>  X coordinate of image center. Default: -0.743643";
   "  -y <coord>  Y coordinate of image center. Default: 0.131825";
   "  -s <scale>  Initial scale. Default: 4";
   "  -W <width>  Image width in pixels. Default: 3840 (4K)";
   "  -H <height> Image height in pixels. Default: 2160 (4K)";
   "  -m <max>    Max iterations. Default: 1000";
   "  -o <base>   Output filename base. Default: mandel";
   "  -p <procs>  Number of processes. Default: all CPU threads";
   "  -n <images> Number of images. Default: 300";
   "  -t <threads> Number of threads per image (1-20). Default: 1";
   "  -P          Preview the final image only.";
   "  -h          Show help."]%string.

(** [void show_help()] *)
Definition show_help : list event := map (fun s => EvStdout (s ++ nl)) help_text.

Section Program.

(** [MAX_THREADS], a macro of [mandelmovie.h]; the help text gives 20. *)
Variable MAX_THREADS : Z.
(** [sysconf(_SC_NPROCESSORS_ONLN)], the default process count. *)
Variable online_cpus : Z.
(** The value of the identifier [final_outfile] where the frame loop of a
    child uses it: the array of that name in [main] is local to the
    preview branch, so in the loop the name denotes an object declared
    outside this file, never assigned by the loop. *)
Variable final_outfile : string.

Definition default_config : config :=
  mkConfig (-0.743643)%float 0.131825%float 4.0%float 3840 2160 2000 300
           online_cpus 1 "mandel" false.

Definition set_x c v := mkConfig v (ycenter c) (xscale c) (image_width c) (image_height c)
  (max_iterations c) (num_images c) (num_processes c) (num_threads c) (outfile_base c) (preview_final c).
Definition set_y c v := mkConfig (xcenter c) v (xscale c) (image_width c) (image_height c)
  (max_iterations c) (num_images c) (num_processes c) (num_threads c) (outfile_base c) (preview_final c).
Definition set_s c v := mkConfig (xcenter c) (ycenter c) v (image_width c) (image_height c)
  (max_iterations c) (num_images c) (num_processes c) (num_threads c) (outfile_base c) (preview_final c).
Definition set_W c n := mkConfig (xcenter c) (ycenter c) (xscale c) n (image_height c)
  (max_iterations c) (num_images c) (num_processes c) (num_threads c) (outfile_base c) (preview_final c).
Definition set_H c n := mkConfig (xcenter c) (ycenter c) (xscale c) (image_width c) n
  (max_iterations c) (num_images c) (num_processes c) (num_threads c) (outfile_base c) (preview_final c).
Definition set_m c n := mkConfig (xcenter c) (ycenter c) (xscale c) (image_width c) (image_height c)
  n (num_images c) (num_processes c) (num_threads c) (outfile_base c) (preview_final c).
Definition set_o c s := mkConfig (xcenter c) (ycenter c) (xscale c) (image_width c) (image_height c)
  (max_iterations c) (num_images c) (num_processes c) (num_threads c) s (preview_final c).
Definition set_p c n := mkConfig (xcenter c) (ycenter c) (xscale c) (image_width c) (image_height c)
  (max_iterations c) (num_images c) n (num_threads c) (outfile_base c) (preview_final c).
Definition set_n c n := mkConfig (xcenter c) (ycenter c) (xscale c) (image_width c) (image_height c)
  (max_iterations c) n (num_processes c) (num_threads c) (outfile_base c) (preview_final c).
Definition set_t c n := mkConfig (xcenter c) (ycenter c) (xscale c) (image_width c) (image_height c)
  (max_iterations c) (num_images c) (num_processes c) n (outfile_base c) (preview_final c).
Definition set_P c := mkConfig (xcenter c) (ycenter c) (xscale c) (image_width c) (image_height c)
  (max_iterations c) (num_images c) (num_processes c) (num_threads c) (outfile_base c) true.

Definition threads_error : string :=
  ("Error: Number of threads must be between 1 and " ++ string_of_int MAX_THREADS ++ "." ++ nl)%string.

(** The [getopt] loop: either the configuration it leaves, or the events of
    an [exit] taken inside it.  [strncpy] keeps at most 255 characters of
    the [-o] argument. *)
Fixpoint parse_opts (c : config) (args : list opt) : config + list event :=
  match args with
  | [] => inl c
  | o :: rest =>
      match o with
      | Opt_x v => parse_opts (set_x c v) rest
      | Opt_y v => parse_opts (set_y c v) rest
      | Opt_s v => parse_opts (set_s c v) rest
      | Opt_W n => parse_opts (set_W c n) rest
      | Opt_H n => parse_opts (set_H c n) rest
      | Opt_m n => parse_opts (set_m c n) rest
      | Opt_o s => parse_opts (set_o c (substring 0 255 s)) rest
      | Opt_p n => parse_opts (set_p c n) rest
      | Opt_n n => parse_opts (set_n c n) rest
      | Opt_t n =>
          if (n <? 1)%Z || (MAX_THREADS <? n)%Z
          then inr [EvStderr threads_error; EvExit 1]
          else parse_opts (set_t c n) rest
      | Opt_P => parse_opts (set_P c) rest
      | Opt_h => inr (show_help ++ [EvExit 1])
      end
  end.

(** [snprintf(outfile, 256, "%s%d.jpg", outfile_base, i)]'s string. *)
Definition frame_outfile (base : string) (i : Z) : string :=
  (base ++ string_of_int i ++ ".jpg")%string.

(** The body of the child's frame loop from frame [i] on.  The viewport
    and [compute_image] leave no event here (see modules [Zoom] and
    [Render]). *)
Fixpoint frame_loop (c : config) (frames : list Z) : list event :=
  match frames with
  | [] => [EvExit 0]
  | i :: rest =>
      let outfile := frame_outfile (outfile_base c) i in
      if (256 <=? Z.of_nat (length outfile))%Z
      then [EvStderr ("Error: Output filename too long for buffer. Truncating." ++ nl)%string;
            EvExit EXIT_FAILURE]
      else EvAlloc (image_width c) (image_height c) :: EvStore final_outfile :: EvFree
           :: EvStdout ("Generated: " ++ outfile ++ nl)%string :: frame_loop c rest
  end.

(** [start] and [end] of child [p]'s frame range. *)
Definition frame_range (num_images num_processes p : Z) : Z * Z :=
  let images_per_process := Z.quot num_images num_processes in
  let remainder_images := Z.rem num_images num_processes in
  let start := p * images_per_process in
  let end_ := start + images_per_process in
  (start, if (p =? num_processes - 1)%Z then end_ + remainder_images else end_).

Definition child (c : config) (p : Z) : list event :=
  let r := frame_range (num_images c) (num_processes c) p in
  frame_loop c (zrange (fst r) (snd r)).

Definition ffmpeg_hint (base : string) : string :=
  ("ffmpeg -framerate 30 -i " ++ base ++ "%d.jpg -pix_fmt yuv420p mandelzoom.mp4" ++ nl)%string.

Definition all_generated : string :=
  ("All images generated. Use ffmpeg to create the movie:" ++ nl)%string.

(** The preview branch. *)
Definition preview (c : config) : list event :=
  let name := (outfile_base c ++ "_final.jpg")%string in
  if (256 <=? Z.of_nat (length name))%Z
  then [EvStderr ("Error: Output filename too long. Truncating." ++ nl)%string; EvExit EXIT_FAILURE]
  else [EvAlloc (image_width c) (image_height c); EvStore name; EvFree;
        EvStdout ("Generated final preview image: " ++ name ++ nl)%string; EvExit 0].

(** [int main(int argc, char *argv[])], the children's wait statuses being
    [status p]: [waitpid] is passed [NULL], so they are never read. *)
Definition main (args : list opt) (status : Z -> wait_status) : run :=
  match parse_opts default_config args with
  | inr evs => mkRun evs []
  | inl c =>
      if preview_final c then mkRun (preview c) []
      else if (num_processes c =? 0)%Z then mkRun [EvHeader c; EvFault] []
      else mkRun
        (EvHeader c :: map EvWait (zrange 0 (num_processes c)) ++
         [EvStdout all_generated; EvStdout (ffmpeg_hint (outfile_base c)); EvExit 0])
        (map (child c) (zrange 0 (num_processes c)))
  end.

End Program.

End Main.


(* ------------------------------------------------------------------ *)
(** ** Zoom trajectory of [main], in doubles *)

(** The [double] expressions of [main] that plan each frame's viewport, in
    IEEE binary64 arithmetic.  [pow] is the C library's: a parameter, of
    which only the special cases that C's Annex F (F.10.4.4) fixes are
    known. *)
Module Zoom.

Local Open Scope float_scope.

(** The special cases of [pow] fixed by Annex F that the trajectory meets:
    [pow(x, +-0) = 1] for any [x]; [pow(+1, y) = 1] for any [y];
    [pow(+0, y) = +0] for [y > 0]; [pow(+inf, y)] is [+inf] for [y > 0]
    and [+0] for [y < 0].  [None] where Annex F leaves the value to the
    library. *)
Definition pow_fixed (x y : float) : option float :=
  if y =? 0 then Some 1
  else if x =? 1 then Some 1
  else if is_zero x && negb (get_sign x) then (if 0 <? y then Some 0 else None)
  else if x =? infinity then
    (if 0 <? y then Some infinity else if y <? 0 then Some 0 else None)
  else None.

(** A [pow] that agrees with Annex F on those cases. *)
Definition conforming (pow : float -> float -> float) : Prop :=
  forall x y r, pow_fixed x y = Some r -> pow x y = r.

(** One such function: Annex F's value where it fixes one, NaN elsewhere. *)
Definition annex_f_pow (x y : float) : float :=
  match pow_fixed x y with Some r => r | None => nan end.

Record viewport := mkViewport { xmin : float; xmax : float; ymin : float; ymax : float }.

Section Trajectory.

(** [double pow(double, double)]. *)
Variable pow : float -> float -> float.

(** [double final_scale = 1e-11;] *)
Definition final_scale : float := 1e-11.

(** [double yscale = xscale / image_width * image_height;] *)
Definition yscale (xscale : float) (image_width image_height : Z) : float :=
  xscale / Pixel.double_of_int image_width * Pixel.double_of_int image_height.

(** [double zoom_factor = pow(final_scale / xscale, 1.0 / num_images);] *)
Definition zoom_factor (xscale : float) (num_images : Z) : float :=
  pow (final_scale / xscale) (1 / Pixel.double_of_int num_images).

(** [double scale = xscale * pow(zoom_factor, i);] *)
Definition frame_scale (xscale : float) (num_images i : Z) : float :=
  xscale * pow (zoom_factor xscale num_images) (Pixel.double_of_int i).

(** [ymin = ycenter - scale / 2; ymax = ycenter + scale / 2;
    xmin = xcenter - scale / 2; xmax = xcenter + scale / 2;] (the [int]
    constant [2] converted to [2.0]). *)
Definition frame_viewport (xcenter ycenter scale : float) : viewport :=
  mkViewport (xcenter - scale / 2) (xcenter + scale / 2)
             (ycenter - scale / 2) (ycenter + scale / 2).

(** The viewport of frame [i] in a child's loop.  The image size is among
    the inputs, as in [main], where [image_width] and [image_height] are in
    scope. *)
Definition child_viewport (xcenter ycenter xscale : float)
    (image_width image_height num_images i : Z) : viewport :=
  frame_viewport xcenter ycenter (frame_scale xscale num_images i).

(** The viewport of the preview branch:
    [double scale = xscale * pow(zoom_factor, num_images - 1);], the [int]
    subtraction wrapping at 32 bits. *)
Definition preview_viewport (xcenter ycenter xscale : float) (num_images : Z) : viewport :=
  frame_viewport xcenter ycenter
    (xscale * pow (zoom_factor xscale num_images)
                  (Pixel.double_of_int (Pixel.wrap32 (num_images - 1)))).

End Trajectory.

End Zoom.

(* ------------------------------------------------------------------ *)
(** ** Sample evaluations *)

Example pixel_origin_5 : Pixel.iterations_at_point 0 0 5 = 5%Z.
Proof. reflexivity. Qed.

Example pixel_one_9 : Pixel.iterations_at_point 1 0 9 = 2%Z.
Proof. reflexivity. Qed.

Example bands_10_3 :
  map (fun d => (Render.start_row d, Render.end_row d))
      (Render.threads (Render.mkImg 4 10) 0 1 0 1 5 3) = [(0, 3); (3, 6); (6, 10)].
Proof. reflexivity. Qed.

Example main_small :
  Main.children (Main.main 20 4 "F" [Main.Opt_n 2; Main.Opt_p 1] (fun _ => Main.Exited 0)) =
  [[Main.EvAlloc 3840 2160; Main.EvStore "F"; Main.EvFree;
    Main.EvStdout ("Generated: mandel0.jpg" ++ Main.nl);
    Main.EvAlloc 3840 2160; Main.EvStore "F"; Main.EvFree;
    Main.EvStdout ("Generated: mandel1.jpg" ++ Main.nl); Main.EvExit 0]]%string.
Proof. reflexivity. Qed.
Example pixel_far_5 : Pixel.iterations_at_point 3 0 5 = 0%Z.
Proof. reflexivity. Qed.
Example color_one : Pixel.iteration_to_color 1 2 = 0x070D11.
Proof. reflexivity. Qed.

(* ------------------------------------------------------------------ *)
(** ** Escape-time evaluator *)

Module PixelFacts.
Import Pixel.

Lemma ltb_leb_false (a b : float) : (a <? b)%float = true -> (b <=? a)%float = false.
Proof.
  rewrite ltb_spec, leb_spec. unfold SFltb, SFleb.
  destruct (Prim2SF a) as [sa|sa| |sa ma ea], (Prim2SF b) as [sb|sb| |sb mb eb];
    simpl; try destruct sa; try destruct sb; simpl; try discriminate; try reflexivity.
  all: rewrite ?Pos.compare_cont_spec; unfold Pos.switch_Eq.
  all: destruct (Z.compare_spec ea eb), (Z.compare_spec eb ea); try lia; subst;
       simpl; try discriminate; try reflexivity.
  all: destruct (Pos.compare_spec ma mb), (Pos.compare_spec mb ma); try lia; subst;
       simpl; try discriminate; try reflexivity.
Qed.

(** The loop run from the [k]-th point of the orbit with [iter = k] and
    [k + fuel = max]. *)
Lemma iter_loop_orbit (x y : float) (max : Z) (fuel k : nat) :
  (Z.of_nat k + Z.of_nat fuel = max)%Z ->
  let r := iter_loop fuel x y (orbit x y k) (Z.of_nat k) max in
  (Z.of_nat k <= r <= max)%Z /\
  (forall m : nat, (Z.of_nat k <= Z.of_nat m < r)%Z ->
     in_disk (fst (orbit x y m)) (snd (orbit x y m)) = true) /\
  ((r < max)%Z -> exists m : nat, Z.of_nat m = r /\
     in_disk (fst (orbit x y m)) (snd (orbit x y m)) = false).
Proof.
  revert k. induction fuel as [|fuel IH]; intros k Hk; simpl.
  - repeat split; intros; lia.
  - assert (Hlt : (Z.of_nat k <? max)%Z = true) by (apply Z.ltb_lt; lia).
    rewrite Hlt, andb_true_r.
    destruct (in_disk (fst (orbit x y k)) (snd (orbit x y k))) eqn:Hd.
    + replace (Z.of_nat k + 1)%Z with (Z.of_nat (S k)) by lia.
      destruct (IH (S k)) as [H1 [H2 H3]]; [lia|]. cbn zeta in *.
      change (step x y (orbit x y k)) with (orbit x y (S k)).
      repeat split; try lia; [|exact H3].
      intros m Hm. destruct (Nat.eq_dec m k) as [->|Hne]; [exact Hd|].
      apply H2. lia.
    + repeat split; try (intros; lia). intros _. exists k. auto.
Qed.

Lemma orbit_origin (k : nat) : orbit 0%float 0%float k = (0%float, 0%float).
Proof. induction k as [|k IH]; simpl; [reflexivity|]. rewrite IH. reflexivity. Qed.

(** C8.  [iterations_at_point x y max] is the number of updates
    [z <- z^2 + c], from [z = c = (x, y)], performed while [|z|^2] (the
    code's [x * x + y * y]) stays within 4, or [max] when the cap is reached
    first: every orbit point before the result is within the disk, and if
    the result is below [max] the orbit point it names is outside.  A point
    with [x * x + y * y > 4] gives 0 and the origin gives [max]. *)
Theorem iterations_at_point_correct (x y : float) (max : Z) (Hmax : (0 <= max)%Z) :
  let r := iterations_at_point x y max in
  (0 <= r <= max)%Z /\
  (forall k : nat, (Z.of_nat k < r)%Z ->
     in_disk (fst (orbit x y k)) (snd (orbit x y k)) = true) /\
  ((r < max)%Z ->
     in_disk (fst (orbit x y (Z.to_nat r))) (snd (orbit x y (Z.to_nat r))) = false) /\
  ((4 <? x * x + y * y)%float = true -> r = 0%Z) /\
  iterations_at_point 0%float 0%float max = max.
Proof.
  assert (Hgen : forall a b : float,
    let r := iterations_at_point a b max in
    (0 <= r <= max)%Z /\
    (forall k : nat, (Z.of_nat k < r)%Z ->
       in_disk (fst (orbit a b k)) (snd (orbit a b k)) = true) /\
    ((r < max)%Z ->
       in_disk (fst (orbit a b (Z.to_nat r))) (snd (orbit a b (Z.to_nat r))) = false)).
  { intros a b. destruct (iter_loop_orbit a b max (Z.to_nat max) 0) as [H1 [H2 H3]];
      [lia|]. unfold iterations_at_point. cbn zeta in *. simpl in H1, H2, H3.
    repeat split; try lia.
    - intros k Hk. apply H2. lia.
    - intros Hr. destruct (H3 Hr) as [m [Hm Hd]].
      rewrite <- Hm, Nat2Z.id. exact Hd. }
  destruct (Hgen x y) as [H1 [H2 H3]]. cbn zeta in *.
  repeat split; try lia; auto.
  - intros Hout. unfold iterations_at_point. destruct (Z.to_nat max) eqn:E; [simpl; reflexivity|].
    simpl. unfold in_disk. rewrite (ltb_leb_false _ _ Hout). reflexivity.
  - destruct (Hgen 0%float 0%float) as [G1 [_ G3]]. cbn zeta in *.
    destruct (Z.eq_dec (iterations_at_point 0 0 max) max) as [E|E]; [exact E|].
    exfalso. rewrite orbit_origin in G3. specialize (G3 ltac:(lia)).
    discriminate G3.
Qed.

End PixelFacts.

(* ------------------------------------------------------------------ *)
(** ** Colour mapper *)

Module ColorFacts.
Import Pixel.

Lemma wrap32_mod256 (v : Z) : (wrap32 v mod 256 = v mod 256)%Z.
Proof.
  unfold wrap32. rewrite (Z.mod_eq (v + 2 ^ 31) (2 ^ 32)) by lia.
  replace (v + 2 ^ 31 - 2 ^ 32 * ((v + 2 ^ 31) / 2 ^ 32) - 2 ^ 31)%Z
    with (v + (- (2 ^ 24 * ((v + 2 ^ 31) / 2 ^ 32))) * 256)%Z by lia.
  apply Z.mod_add. lia.
Qed.

Lemma rem_mod256 (v : Z) : (Z.rem v 256 mod 256 = v mod 256)%Z.
Proof.
  rewrite (Z.quot_rem' v 256) at 2.
  replace (256 * Z.quot v 256 + Z.rem v 256)%Z with (Z.rem v 256 + Z.quot v 256 * 256)%Z by lia.
  rewrite Z.mod_add by lia. reflexivity.
Qed.

(** A channel is [(k * iters) mod 256], whatever the 32-bit wrap-around. *)
Lemma channel_eq (k iters : Z) : channel k iters = ((k * iters) mod 256)%Z.
Proof.
  unfold channel. rewrite rem_mod256, wrap32_mod256, Z.mul_comm. reflexivity.
Qed.

Lemma channel_range (k iters : Z) : (0 <= channel k iters <= 255)%Z.
Proof. rewrite channel_eq. pose proof (Z.mod_pos_bound (k * iters) 256). lia. Qed.

Lemma lor_shiftl_add (a b n : Z) :
  (0 <= n)%Z -> (0 <= b < 2 ^ n)%Z -> Z.lor (Z.shiftl a n) b = (a * 2 ^ n + b)%Z.
Proof.
  intros Hn Hb. rewrite Z.shiftl_mul_pow2 by lia.
  assert (Hd : Z.land (a * 2 ^ n) b = 0%Z).
  { apply Z.bits_inj'. intros m Hm. rewrite Z.land_spec, Z.bits_0.
    destruct (Z.lt_ge_cases m n) as [Hlt|Hge].
    - rewrite Z.mul_pow2_bits_low by lia. reflexivity.
    - rewrite <- (Z.mod_small b (2 ^ n)) by lia.
      rewrite Z.mod_pow2_bits_high by lia. apply andb_false_r. }
  rewrite <- Z.lxor_lor by exact Hd. rewrite <- Z.add_nocarry_lxor by exact Hd.
  reflexivity.
Qed.

(** The packed colour [(r << 16) | (g << 8) | b] of three bytes. *)
Lemma pack_eq (r g b : Z) :
  (0 <= r)%Z -> (0 <= g <= 255)%Z -> (0 <= b <= 255)%Z ->
  Z.lor (Z.lor (Z.shiftl r 16) (Z.shiftl g 8)) b = (r * 65536 + g * 256 + b)%Z.
Proof.
  intros Hr Hg Hb.
  replace (Z.shiftl r 16) with (Z.shiftl (Z.shiftl r 8) 8)
    by (rewrite Z.shiftl_shiftl by lia; reflexivity).
  rewrite <- Z.shiftl_lor, (lor_shiftl_add r g 8) by (simpl; lia).
  rewrite lor_shiftl_add by (simpl; lia). simpl. lia.
Qed.

Lemma unpack (r g b : Z) :
  (0 <= r <= 255)%Z -> (0 <= g <= 255)%Z -> (0 <= b <= 255)%Z ->
  let c := (r * 65536 + g * 256 + b)%Z in
  red c = r /\ green c = g /\ blue c = b.
Proof.
  intros Hr Hg Hb c. unfold red, green, blue, c.
  change 255%Z with (Z.ones 8).
  rewrite !Z.land_ones, !Z.shiftr_div_pow2 by lia.
  change (2 ^ 16)%Z with 65536%Z. change (2 ^ 8)%Z with 256%Z.
  rewrite <- (Z.div_unique_pos (r * 65536 + g * 256 + b) 65536 r (g * 256 + b)) by lia.
  rewrite <- (Z.div_unique_pos (r * 65536 + g * 256 + b) 256 (r * 256 + g) b) by lia.
  rewrite <- (Z.mod_unique_pos (r * 65536 + g * 256 + b) 256 (r * 256 + g) b) by lia.
  rewrite <- (Z.mod_unique_pos (r * 256 + g) 256 r g) by lia.
  rewrite Z.mod_small by lia. auto.
Qed.

(** C9 (amended).  [iteration_to_color] is a function of [(iters, max)]:
    [iters = max] gives black, 0; any other [iters] gives the packed colour
    whose red, green and blue bytes are [7 * iters], [13 * iters] and
    [17 * iters] modulo 256, each in [0, 255], the same for every [max]
    other than [iters]. *)
Theorem iteration_to_color_spec (iters max : Z) :
  (iters = max -> iteration_to_color iters max = 0%Z) /\
  (iters <> max ->
     let c := iteration_to_color iters max in
     red c = ((7 * iters) mod 256)%Z /\
     green c = ((13 * iters) mod 256)%Z /\
     blue c = ((17 * iters) mod 256)%Z /\
     (0 <= red c <= 255)%Z /\ (0 <= green c <= 255)%Z /\ (0 <= blue c <= 255)%Z /\
     (forall max' : Z, iters <> max' -> iteration_to_color iters max' = c)).
Proof.
  split.
  - intros ->. unfold iteration_to_color. rewrite Z.eqb_refl. reflexivity.
  - intros Hne c.
    assert (Hc : forall m, iters <> m ->
              iteration_to_color iters m =
              (channel 7 iters * 65536 + channel 13 iters * 256 + channel 17 iters)%Z).
    { intros m Hm. unfold iteration_to_color.
      destruct (Z.eqb_spec iters m) as [E|_]; [contradiction|].
      apply pack_eq; pose proof (channel_range 7 iters);
        pose proof (channel_range 13 iters); pose proof (channel_range 17 iters); lia. }
    destruct (unpack (channel 7 iters) (channel 13 iters) (channel 17 iters))
      as [Hr [Hg Hb]]; try apply channel_range.
    subst c. rewrite (Hc max Hne), Hr, Hg, Hb, !channel_eq.
    repeat split; try (apply Z.mod_pos_bound; lia);
      try (pose proof (Z.mod_pos_bound (7 * iters) 256);
           pose proof (Z.mod_pos_bound (13 * iters) 256);
           pose proof (Z.mod_pos_bound (17 * iters) 256); lia).
    intros m Hm. rewrite (Hc m Hm), !channel_eq. reflexivity.
Qed.

(** C9 refuted as stated: [iters/max] is 1/2 for both (1, 2) and (2, 4), both
    strictly between 0 and [max], yet their colours differ (0x070D11 and
    0x0E1A22): the colour is not a function of the ratio. *)
Lemma iteration_to_color_not_ratio :
  (0 < 1 < 2)%Z /\ (0 < 2 < 4)%Z /\ (1 * 4 = 2 * 2)%Z /\
  iteration_to_color 1 2 = 0x070D11%Z /\ iteration_to_color 2 4 = 0x0E1A22%Z /\
  iteration_to_color 1 2 <> iteration_to_color 2 4.
Proof. vm_compute. repeat split; congruence. Qed.

End ColorFacts.

(* ------------------------------------------------------------------ *)
(** ** Integer ranges and contiguous partitions *)

Module RangeFacts.

Lemma map_seq_shift (a : Z) (s m : nat) :
  map (fun k => (a + Z.of_nat k)%Z) (seq s m) =
  map (fun k => (a + Z.of_nat s + Z.of_nat k)%Z) (seq 0 m).
Proof.
  induction m as [|m IH]; [reflexivity|].
  rewrite !seq_S, !map_app, IH. simpl. f_equal. f_equal. lia.
Qed.

Lemma zrange_app (a b c : Z) :
  (a <= b <= c)%Z -> zrange a b ++ zrange b c = zrange a c.
Proof.
  intros H. unfold zrange.
  replace (Z.to_nat (c - a)) with (Z.to_nat (b - a) + Z.to_nat (c - b))%nat by lia.
  rewrite seq_app, map_app, (map_seq_shift a (0 + Z.to_nat (b - a))%nat). f_equal.
  apply map_ext. intros k. lia.
Qed.

Lemma zrange_empty (a b : Z) : (b <= a)%Z -> zrange a b = [].
Proof. intros H. unfold zrange. replace (Z.to_nat (b - a)) with 0%nat by lia. reflexivity. Qed.

Lemma zrange_snoc (a b : Z) : (a <= b)%Z -> zrange a (b + 1) = zrange a b ++ [b].
Proof.
  intros H. rewrite <- (zrange_app a b (b + 1)) by lia. f_equal.
  unfold zrange. replace (Z.to_nat (b + 1 - b)) with 1%nat by lia. simpl. f_equal. lia.
Qed.

Lemma in_zrange (a b k : Z) : In k (zrange a b) <-> (a <= k < b)%Z.
Proof.
  unfold zrange. rewrite in_map_iff. split.
  - intros [n [<- Hn]]. apply in_seq in Hn. lia.
  - intros Hk. exists (Z.to_nat (k - a)). split; [lia|]. apply in_seq. lia.
Qed.

Lemma zrange_NoDup (a b : Z) : NoDup (zrange a b).
Proof.
  unfold zrange. apply NoDup_map_NoDup_ForallPairs; [|apply seq_NoDup].
  intros m n _ _ E. lia.
Qed.

Lemma blocks_concat (q : Z) (n : nat) : (0 <= q)%Z ->
  List.concat (map (fun t => zrange (t * q) ((t + 1) * q)) (zrange 0 (Z.of_nat n))) =
  zrange 0 (Z.of_nat n * q).
Proof.
  intros Hq. induction n as [|n IH]; [reflexivity|].
  rewrite Nat2Z.inj_succ, <- Z.add_1_r, zrange_snoc, map_app, concat_app, IH by lia.
  simpl. rewrite app_nil_r. apply zrange_app. nia.
Qed.

(** Blocks of [q = total ÷ parts] items, the last one running to [total],
    cover [[0, total)] in order. *)
Lemma partition_concat (total parts : Z) :
  (0 <= total)%Z -> (1 <= parts)%Z ->
  List.concat (map (fun t => zrange (t * Z.quot total parts)
                      (if (t =? parts - 1)%Z then total else (t + 1) * Z.quot total parts))
                   (zrange 0 parts)) = zrange 0 total.
Proof.
  intros Ht Hp. set (q := Z.quot total parts).
  assert (Hq : (0 <= q)%Z) by (apply Z.quot_pos; lia).
  assert (Hqt : (parts * q <= total)%Z) by (apply Z.mul_quot_le; lia).
  assert (Hs : zrange 0 parts = zrange 0 (parts - 1) ++ [parts - 1]).
  { rewrite <- zrange_snoc by lia. f_equal. lia. }
  rewrite Hs, map_app, concat_app.
  rewrite (map_ext_in _ (fun t => zrange (t * q) ((t + 1) * q))).
  - replace (parts - 1)%Z with (Z.of_nat (Z.to_nat (parts - 1))) at 1 by lia.
    rewrite blocks_concat by exact Hq. rewrite Z2Nat.id by lia.
    simpl. rewrite Z.eqb_refl, app_nil_r. apply zrange_app. nia.
  - intros t Ht'. apply in_zrange in Ht'.
    destruct (Z.eqb_spec t (parts - 1)); [lia|reflexivity].
Qed.

Lemma flat_map_concat {A B : Type} (f : A -> list B) (ls : list (list A)) :
  flat_map f (List.concat ls) = List.concat (map (flat_map f) ls).
Proof.
  induction ls as [|l ls IH]; [reflexivity|].
  simpl. rewrite flat_map_app, IH. reflexivity.
Qed.

End RangeFacts.

(* ------------------------------------------------------------------ *)
(** ** Row bands of [compute_image] and frame ranges of [main] *)

Module PartitionFacts.
Import RangeFacts.

Lemma thread_data_rows (im : Render.imgRawImage) x0 x1 y0 y1 max T t :
  let d := Render.thread_data im x0 x1 y0 y1 max T t in
  (Render.start_row d, Render.end_row d) =
  (t * Z.quot (Render.height im) T,
   if (t =? T - 1)%Z then Render.height im else (t + 1) * Z.quot (Render.height im) T)%Z.
Proof. reflexivity. Qed.

Lemma frame_range_eq (N P p : Z) : P <> 0%Z ->
  Main.frame_range N P p =
  (p * Z.quot N P, if (p =? P - 1)%Z then N else (p + 1) * Z.quot N P)%Z.
Proof.
  intros HP. unfold Main.frame_range. cbn zeta.
  pose proof (Z.quot_rem' N P) as E.
  destruct (Z.eqb_spec p (P - 1)); f_equal; nia.
Qed.

Lemma rows_concat (im : Render.imgRawImage) x0 x1 y0 y1 max T :
  (0 <= Render.height im)%Z -> (1 <= T)%Z ->
  List.concat (map (fun d => zrange (Render.start_row d) (Render.end_row d))
                   (Render.threads im x0 x1 y0 y1 max T)) = zrange 0 (Render.height im).
Proof.
  intros Hh HT. unfold Render.threads. rewrite map_map.
  rewrite <- (partition_concat (Render.height im) T Hh HT). reflexivity.
Qed.

(** C6.  Row bands: for [1 <= T <= H], the bands of the [T] threads,
    concatenated in thread order, are exactly the rows [0 .. H-1] (so they
    cover [[0, H)] without overlap); each band ends where the next begins and
    holds [H ÷ T] rows, the last one running to [H] with the remainder.
    Frame ranges: the same for [num_images] frames over [num_processes]
    children, and 10 frames over 3 children give [0,3), [3,6), [6,10). *)
Theorem bands_partition (w H T N P : Z) (x0 x1 y0 y1 : float) (max : Z) :
  (1 <= T <= H)%Z -> (1 <= P <= N)%Z ->
  let im := Render.mkImg w H in
  let band t := Render.thread_data im x0 x1 y0 y1 max T t in
  (List.concat (map (fun d => zrange (Render.start_row d) (Render.end_row d))
                    (Render.threads im x0 x1 y0 y1 max T)) = zrange 0 H /\
   Render.start_row (band 0%Z) = 0%Z /\
   (forall t, (0 <= t < T - 1)%Z ->
      Render.end_row (band t) = Render.start_row (band (t + 1)%Z) /\
      (Render.end_row (band t) - Render.start_row (band t) = Z.quot H T)%Z) /\
   Render.end_row (band (T - 1)%Z) = H /\
   (Render.end_row (band (T - 1)%Z) - Render.start_row (band (T - 1)%Z)
      = Z.quot H T + Z.rem H T)%Z) /\
  (List.concat (map (fun p => zrange (fst (Main.frame_range N P p)) (snd (Main.frame_range N P p)))
                    (zrange 0 P)) = zrange 0 N /\
   fst (Main.frame_range N P 0) = 0%Z /\
   (forall p, (0 <= p < P - 1)%Z ->
      snd (Main.frame_range N P p) = fst (Main.frame_range N P (p + 1)) /\
      (snd (Main.frame_range N P p) - fst (Main.frame_range N P p) = Z.quot N P)%Z) /\
   snd (Main.frame_range N P (P - 1)) = N /\
   (snd (Main.frame_range N P (P - 1)) - fst (Main.frame_range N P (P - 1))
      = Z.quot N P + Z.rem N P)%Z) /\
  map (Main.frame_range 10 3) (zrange 0 3) = [(0, 3); (3, 6); (6, 10)]%Z.
Proof.
  intros HT HP im band.
  pose proof (Z.quot_rem' H T) as EH. pose proof (Z.quot_rem' N P) as EN.
  assert (Hs : forall t, Render.start_row (band t) = (t * Z.quot H T)%Z) by reflexivity.
  assert (He : forall t, Render.end_row (band t) =
            (if (t =? T - 1)%Z then H else (t + 1) * Z.quot H T)%Z) by reflexivity.
  assert (Hf : forall p, Main.frame_range N P p =
            (p * Z.quot N P, if (p =? P - 1)%Z then N else (p + 1) * Z.quot N P)%Z)
    by (intros p; apply frame_range_eq; lia).
  split; [|split].
  - split; [apply (rows_concat im); simpl; lia|].
    split; [rewrite Hs; lia|].
    split; [|split].
    + intros t Ht. rewrite !Hs, He.
      destruct (Z.eqb_spec t (T - 1)); [lia|]. split; nia.
    + rewrite He, Z.eqb_refl. reflexivity.
    + rewrite He, Hs, Z.eqb_refl. nia.
  - split.
    + rewrite (map_ext (fun p => zrange (fst (Main.frame_range N P p)) (snd (Main.frame_range N P p)))
                 (fun p => zrange (p * Z.quot N P)
                             (if (p =? P - 1)%Z then N else (p + 1) * Z.quot N P)))
        by (intros p; rewrite Hf; reflexivity).
      apply partition_concat; lia.
    + rewrite !Hf. simpl fst. simpl snd. split; [lia|]. split; [|split].
      * intros p Hp. rewrite ?Hf. simpl.
        destruct (Z.eqb_spec p (P - 1)); [lia|]. split; nia.
      * rewrite Z.eqb_refl. reflexivity.
      * rewrite Z.eqb_refl. nia.
  - reflexivity.
Qed.

End PartitionFacts.

(* ------------------------------------------------------------------ *)
(** ** The pixel store under concurrent, disjoint writes *)

Module RenderFacts.
Import RangeFacts PartitionFacts Render.

Lemma key_eqb_spec (k k' : Z * Z) : key_eqb k k' = true <-> k = k'.
Proof.
  destruct k as [a b], k' as [c d]. unfold key_eqb. simpl.
  rewrite andb_true_iff, !Z.eqb_eq. split; [intros [-> ->]; reflexivity|].
  intros E; injection E; auto.
Qed.

Lemma apply_writes_ext (b1 b2 : buffer) (ws : list write) :
  (forall k, b1 k = b2 k) -> forall k, apply_writes b1 ws k = apply_writes b2 ws k.
Proof.
  revert b1 b2. induction ws as [|w ws IH]; intros b1 b2 Hb; simpl; [exact Hb|].
  apply IH. intros k. unfold set_pixel. rewrite Hb. reflexivity.
Qed.

Lemma apply_writes_notin (b : buffer) (ws : list write) (k : Z * Z) :
  ~ In k (map fst ws) -> apply_writes b ws k = b k.
Proof.
  revert b. induction ws as [|w ws IH]; intros b Hk; simpl; [reflexivity|].
  simpl in Hk. rewrite IH by tauto. unfold set_pixel.
  destruct (key_eqb k (fst w)) eqn:E; [|reflexivity].
  apply key_eqb_spec in E. exfalso. apply Hk. left. symmetry. exact E.
Qed.

Lemma apply_writes_in (b : buffer) (ws : list write) (k : Z * Z) (v : Z) :
  NoDup (map fst ws) -> In (k, v) ws -> apply_writes b ws k = Some v.
Proof.
  revert b. induction ws as [|w ws IH]; intros b Hnd Hin; [destruct Hin|].
  simpl in Hnd. inversion Hnd as [|? ? Hnotin Hnd']; subst. simpl.
  destruct Hin as [->|Hin].
  - rewrite apply_writes_notin by exact Hnotin. unfold set_pixel.
    simpl. replace (key_eqb k k) with true; [reflexivity|].
    symmetry. apply key_eqb_spec. reflexivity.
  - apply IH; assumption.
Qed.

(** Writes to pairwise distinct pixels commute: every order of them leaves
    the same store. *)
Lemma apply_writes_perm (ws1 ws2 : list write) :
  NoDup (map fst ws1) -> Permutation ws1 ws2 ->
  forall b k, apply_writes b ws1 k = apply_writes b ws2 k.
Proof.
  intros Hnd Hp. induction Hp as [|w l1 l2 Hp IH|w1 w2 l|l1 l2 l3 Hp1 IH1 Hp2 IH2];
    intros b k; simpl.
  - reflexivity.
  - inversion Hnd; subst. apply IH; assumption.
  - simpl in Hnd. inversion Hnd as [|? ? Hn1 Hnd1]; subst.
    apply apply_writes_ext. intros k'. unfold set_pixel.
    destruct (key_eqb k' (fst w1)) eqn:E1, (key_eqb k' (fst w2)) eqn:E2; try reflexivity.
    apply key_eqb_spec in E1. apply key_eqb_spec in E2. subst.
    exfalso. apply Hn1. rewrite E2. left. reflexivity.
  - rewrite (IH1 Hnd). apply IH2.
    apply (Permutation_NoDup (Permutation_map fst Hp1) Hnd).
Qed.

(** The writes of rows [js], each row [j] writing the pixels [(i, j)] for
    [i] in [is]. *)
Lemma rows_keys_NoDup (f : Z -> Z -> Z) (is js : list Z) :
  NoDup is -> NoDup js ->
  NoDup (map fst (flat_map (fun j => map (fun i => ((i, j), f i j)) is) js)).
Proof.
  intros His Hjs. induction Hjs as [|j js Hj Hjs IH]; simpl; [constructor|].
  rewrite map_app, map_map. simpl. apply NoDup_app; [|exact IH|].
  - apply NoDup_map_NoDup_ForallPairs; [|exact His].
    intros a c _ _ E. injection E. auto.
  - intros k Hk1 Hk2. apply in_map_iff in Hk1. destruct Hk1 as [i [<- _]].
    apply in_map_iff in Hk2. destruct Hk2 as [[[i' j'] v] [E Hin]].
    simpl in E. injection E as -> ->.
    apply in_flat_map in Hin. destruct Hin as [j'' [Hj'' Hin]].
    apply in_map_iff in Hin. destruct Hin as [i'' [E' _]]. injection E' as _ -> _.
    contradiction.
Qed.

Lemma rows_in (f : Z -> Z -> Z) (w : Z) (js : list Z) (i j : Z) :
  (0 <= i < w)%Z -> In j js ->
  In ((i, j), f i j) (flat_map (fun j => map (fun i => ((i, j), f i j)) (zrange 0 w)) js).
Proof.
  intros Hi Hj. apply in_flat_map. exists j. split; [exact Hj|].
  apply in_map_iff. exists i. split; [reflexivity|]. apply in_zrange. exact Hi.
Qed.

(** However many threads, [compute_image] performs exactly the writes of
    all rows [0 .. height-1], row after row, each with the colour of its
    pixel. *)
Lemma threads_writes (im : imgRawImage) x0 x1 y0 y1 max T :
  (0 <= height im)%Z -> (1 <= T)%Z ->
  List.concat (map compute_image_region (threads im x0 x1 y0 y1 max T)) =
  flat_map (fun j => map (fun i => ((i, j), pixel_color (mkThreadData im x0 x1 y0 y1 max 0 0) i j))
                         (zrange 0 (width im)))
           (zrange 0 (height im)).
Proof.
  intros Hh HT.
  rewrite <- (rows_concat im x0 x1 y0 y1 max T Hh HT), flat_map_concat, map_map.
  f_equal. unfold threads. rewrite !map_map. apply map_ext. intros t. reflexivity.
Qed.

Lemma compute_image_store (im : imgRawImage) (b0 : buffer) x0 x1 y0 y1 max T (b : buffer) :
  (0 <= height im)%Z -> (1 <= T)%Z ->
  compute_image im b0 x0 x1 y0 y1 max T b ->
  forall k, b k = apply_writes b0
    (flat_map (fun j => map (fun i => ((i, j), pixel_color (mkThreadData im x0 x1 y0 y1 max 0 0) i j))
                            (zrange 0 (width im)))
              (zrange 0 (height im))) k.
Proof.
  intros Hh HT [ws [Hp Hb]] k. rewrite Hb.
  rewrite (threads_writes im x0 x1 y0 y1 max T Hh HT) in Hp.
  symmetry. apply apply_writes_perm; [|exact (Permutation_sym Hp)].
  apply rows_keys_NoDup; apply zrange_NoDup.
Qed.

Lemma compute_image_pixels (im : imgRawImage) (b0 : buffer) x0 x1 y0 y1 max T (b : buffer) :
  (0 <= height im)%Z -> (1 <= T)%Z ->
  compute_image im b0 x0 x1 y0 y1 max T b ->
  (forall b1, compute_image im b0 x0 x1 y0 y1 max 1 b1 -> forall k, b k = b1 k) /\
  (forall i j, (0 <= i < width im)%Z -> (0 <= j < height im)%Z ->
     b (i, j) = Some (pixel_color (mkThreadData im x0 x1 y0 y1 max 0 0) i j)).
Proof.
  intros Hh HT Hb. split.
  - intros b1 Hb1 k. rewrite (compute_image_store im b0 x0 x1 y0 y1 max T b Hh HT Hb k).
    rewrite (compute_image_store im b0 x0 x1 y0 y1 max 1 b1 Hh ltac:(lia) Hb1 k).
    reflexivity.
  - intros i j Hi Hj. rewrite (compute_image_store im b0 x0 x1 y0 y1 max T b Hh HT Hb).
    apply apply_writes_in.
    + apply rows_keys_NoDup; apply zrange_NoDup.
    + apply rows_in; [exact Hi|]. apply in_zrange. exact Hj.
Qed.

(** C7.  For every image, viewport, cap and thread count [T >= 1], the store
    [compute_image] leaves is, pixel for pixel, the one it leaves with one
    thread, and pixel [(i, j)] holds the colour of the escape time of
    [x = xmin + i * (xmax - xmin) / width], [y = ymin + j * (ymax - ymin) / height]
    (so [(0, 0)] is [(xmin, ymin)]), whatever order the threads' writes
    interleave in. *)
Theorem compute_image_correct (im : imgRawImage) (b0 : buffer) (x0 x1 y0 y1 : float)
    (max T : Z) (b : buffer) :
  (0 <= height im)%Z -> (1 <= T)%Z ->
  compute_image im b0 x0 x1 y0 y1 max T b ->
  (forall b1, compute_image im b0 x0 x1 y0 y1 max 1 b1 -> forall k, b k = b1 k) /\
  (forall i j, (0 <= i < width im)%Z -> (0 <= j < height im)%Z ->
     b (i, j) = Some (Pixel.iteration_to_color
       (Pixel.iterations_at_point
          (x0 + Pixel.double_of_int i * (x1 - x0) / Pixel.double_of_int (width im))%float
          (y0 + Pixel.double_of_int j * (y1 - y0) / Pixel.double_of_int (height im))%float
          max) max)).
Proof. exact (compute_image_pixels im b0 x0 x1 y0 y1 max T b). Qed.

(** C10.  With more threads than rows ([0 <= H < T]), [rows_per_thread] is
    0, every thread but the last gets the empty band [[0, 0)], the last one
    gets [[0, H)], and the store is still fully written and equal to the
    one-thread store. *)
Theorem compute_image_more_threads_than_rows (im : imgRawImage) (b0 : buffer)
    (x0 x1 y0 y1 : float) (max T : Z) (b : buffer) :
  (0 <= height im < T)%Z ->
  compute_image im b0 x0 x1 y0 y1 max T b ->
  Z.quot (height im) T = 0%Z /\
  (forall t, (0 <= t < T - 1)%Z ->
     start_row (thread_data im x0 x1 y0 y1 max T t) = 0%Z /\
     end_row (thread_data im x0 x1 y0 y1 max T t) = 0%Z) /\
  start_row (thread_data im x0 x1 y0 y1 max T (T - 1)) = 0%Z /\
  end_row (thread_data im x0 x1 y0 y1 max T (T - 1)) = height im /\
  (forall b1, compute_image im b0 x0 x1 y0 y1 max 1 b1 -> forall k, b k = b1 k) /\
  (forall i j, (0 <= i < width im)%Z -> (0 <= j < height im)%Z ->
     b (i, j) = Some (pixel_color (mkThreadData im x0 x1 y0 y1 max 0 0) i j)).
Proof.
  intros HT Hb.
  assert (Hq : Z.quot (height im) T = 0%Z) by (apply Z.quot_small; lia).
  destruct (compute_image_pixels im b0 x0 x1 y0 y1 max T b ltac:(lia) ltac:(lia) Hb)
    as [H1 H2].
  split; [exact Hq|]. split; [|split; [|split]]; try (split; assumption).
  - intros t Ht. simpl. rewrite Hq. destruct (Z.eqb_spec t (T - 1)); [lia|]. lia.
  - simpl. rewrite Hq. lia.
  - simpl. rewrite Z.eqb_refl. reflexivity.
Qed.

End RenderFacts.

(* ------------------------------------------------------------------ *)
(** ** Zoom trajectory *)

Module ZoomFacts.
Import Zoom RangeFacts.
Local Open Scope float_scope.

(** [x * 1.0 = x] for every double: [SFmul] forms the exact product
    [m * 2^52 * 2^(e - 52)] and rounds it back to [m * 2^e], which is
    already canonical. *)
Lemma mul_1_r (x : float) : x * 1 = x.
Proof.
  apply Prim2SF_inj. rewrite mul_spec.
  change (Prim2SF 1) with (S754_finite false 4503599627370496 (-52)).
  pose proof (Prim2SF_valid x) as V.
  destruct (Prim2SF x) as [s|s| |s m e]; try (destruct s; reflexivity); try reflexivity.
  unfold SF64mul, SFmul. rewrite Pos.mul_comm, Bool.xorb_false_r.
  unfold valid_binary, bounded, canonical_mantissa in V.
  apply andb_prop in V. destruct V as [V1 V2]. apply Z.eqb_eq in V1. apply Z.leb_le in V2.
  unfold binary_round_aux, shr_fexp. cbn [Zdigits2 Pos.mul digits2_pos].
  rewrite !Pos2Z.inj_succ.
  match goal with |- context [(fexp prec emax ?a - ?b)%Z] =>
    replace (fexp prec emax a - b)%Z with 52%Z
      by (replace a with (Z.pos (digits2_pos m) + e)%Z by lia; lia) end.
  cbn - [fexp Z.add Z.sub].
  replace (e + -52 + 52)%Z with e by lia.
  cbn [Zdigits2]. rewrite V1, Z.sub_diag. cbn - [Z.leb].
  assert (E : (e <=? 971)%Z = true) by (apply Z.leb_le; exact V2). rewrite E. reflexivity.
Qed.


Lemma annex_f_pow_conforming : conforming annex_f_pow.
Proof. intros x y r E. unfold annex_f_pow. rewrite E. reflexivity. Qed.


Section Conforming.

Variable pow : float -> float -> float.
Hypothesis Hpow : conforming pow.

Lemma pow_0_r (x : float) : pow x 0 = 1.
Proof. apply Hpow. reflexivity. Qed.

Lemma pow_1_l (y : float) : pow 1 y = 1.
Proof. apply Hpow. unfold pow_fixed. destruct (y =? 0); reflexivity. Qed.

Lemma frame_scale_0 (xscale : float) (n : Z) : frame_scale pow xscale n 0 = xscale.
Proof.
  unfold frame_scale. change (Pixel.double_of_int 0) with 0.
  rewrite pow_0_r. apply mul_1_r.
Qed.



End Conforming.



(** C2.  Every frame's bounds are [xcenter -/+ scale / 2] and
    [ycenter -/+ scale / 2] with one [scale], the frame's x-scale, whatever
    the image size.  With the default options ([-s 4], 3840 x 2160), frame
    0 has [ymin = 0.131825 - 4 / 2] and [ymax = 0.131825 + 4 / 2], not the
    aspect-corrected bounds [ycenter -/+ yscale / 2] with [yscale = 2.25]. *)
Theorem child_viewport_not_aspect_corrected (pow : float -> float -> float)
    (Hpow : conforming pow) :
  (forall (xc yc xs : float) (w h n i : Z),
     let v := child_viewport pow xc yc xs w h n i in
     let s := frame_scale pow xs n i in
     xmin v = xc - s / 2 /\ xmax v = xc + s / 2 /\
     ymin v = yc - s / 2 /\ ymax v = yc + s / 2 /\
     (forall w' h' : Z, child_viewport pow xc yc xs w' h' n i = v)) /\
  (let v := child_viewport pow (-0.743643) 0.131825 4 3840 2160 300 0 in
   yscale 4 3840 2160 = 2.25 /\
   ymin v = 0.131825 - 4 / 2 /\ ymax v = 0.131825 + 4 / 2 /\
   ymin v <> 0.131825 - yscale 4 3840 2160 / 2 /\
   ymax v <> 0.131825 + yscale 4 3840 2160 / 2).
Proof.
  split.
  - intros xc yc xs w h n i v s. repeat split.
  - cbv zeta. unfold child_viewport, frame_viewport. cbn [ymin ymax].
    rewrite (frame_scale_0 pow Hpow).
    split; [reflexivity|]. split; [reflexivity|]. split; [reflexivity|].
    split; intros E; apply (f_equal Prim2SF) in E; vm_compute in E; discriminate.
Qed.

End ZoomFacts.

(* ------------------------------------------------------------------ *)
(** ** [main]: output files, waiting, option checks *)

Module MainFacts.
Import Main.

Lemma frame_loop_stores (fo : string) (c : config) (frames : list Z) (s : string) :
  In (EvStore s) (frame_loop fo c frames) -> s = fo.
Proof.
  induction frames as [|i rest IH]; simpl.
  - intros [E|[]]. discriminate.
  - destruct (256 <=? _)%Z.
    + intros [E|[E|[]]]; discriminate.
    + intros [E|[E|[E|[E|H]]]]; try discriminate; [injection E; auto|auto].
Qed.

(** C1 (defect).  Every child stores each of its frames under the one name
    [final_outfile], never under [outfile_base + i + ".jpg"]: with the
    default settings, two frames and one process, frames 0 and 1 are both
    stored under [final_outfile] while the messages name [mandel0.jpg] and
    [mandel1.jpg]. *)
Theorem frames_stored_under_one_name (fo : string) :
  (forall MAX cpus args st ev s,
     In ev (children (main MAX cpus fo args st)) -> In (EvStore s) ev -> s = fo) /\
  children (main 20 4 fo [Opt_n 2; Opt_p 1] (fun _ => Exited 0)) =
  [[EvAlloc 3840 2160; EvStore fo; EvFree; EvStdout ("Generated: mandel0.jpg" ++ nl);
    EvAlloc 3840 2160; EvStore fo; EvFree; EvStdout ("Generated: mandel1.jpg" ++ nl);
    EvExit 0]]%string.
Proof.
  split; [|reflexivity].
  intros MAX cpus args st ev s. unfold main.
  destruct (parse_opts MAX (default_config cpus) args) as [c|evs]; simpl; [|tauto].
  destruct (preview_final c); simpl; [tauto|].
  destruct (num_processes c =? 0)%Z; simpl; [tauto|].
  intros Hev. apply in_map_iff in Hev. destruct Hev as [p [<- _]].
  unfold child. apply frame_loop_stores.
Qed.

(** C4 (amended).  Once the children are forked, the parent waits for each
    of them in turn, then prints the completion message and the [ffmpeg]
    hint and exits with status 0; its whole trace is the same whatever the
    children's wait statuses, abnormal terminations included. *)
Theorem parent_ignores_child_status (MAX cpus : Z) (fo : string) (args : list opt)
    (c : config) (st : Z -> wait_status) :
  parse_opts MAX (default_config cpus) args = inl c ->
  preview_final c = false -> num_processes c <> 0%Z ->
  parent (main MAX cpus fo args st) =
    EvHeader c :: map EvWait (zrange 0 (num_processes c)) ++
    [EvStdout all_generated; EvStdout (ffmpeg_hint (outfile_base c)); EvExit 0] /\
  (forall st' : Z -> wait_status,
     parent (main MAX cpus fo args st') = parent (main MAX cpus fo args st)).
Proof.
  intros Hp Hpv Hn. split; [|reflexivity].
  unfold main. rewrite Hp, Hpv. destruct (Z.eqb_spec (num_processes c) 0); [lia|].
  reflexivity.
Qed.

(** C4 refuted as stated: 10 frames over 3 children, all killed by signal
    11, give the parent the same trace as when they all succeed, ending in
    the completion message and exit status 0, with no lost range named. *)
Lemma crashed_children_reported_as_success :
  let crashed := main 20 4 "" [Opt_n 10; Opt_p 3] (fun _ => Signaled 11) in
  parent crashed = parent (main 20 4 "" [Opt_n 10; Opt_p 3] (fun _ => Exited 0)) /\
  In (EvStdout all_generated) (parent crashed) /\
  last (parent crashed) EvFault = EvExit 0 /\
  (forall s, ~ In (EvStderr s) (parent crashed)).
Proof.
  cbv zeta. split; [reflexivity|]. split; [simpl; tauto|]. split; [reflexivity|].
  intros s. simpl. intuition discriminate.
Qed.

Lemma parse_stops_at_bad_thread_count (MAX : Z) (c : config) (pre post : list opt) (n : Z) :
  (forall o, In o pre -> o <> Opt_h /\ (forall m, o = Opt_t m -> (1 <= m <= MAX)%Z)) ->
  (n < 1 \/ MAX < n)%Z ->
  parse_opts MAX c (pre ++ Opt_t n :: post) = inr [EvStderr (threads_error MAX); EvExit 1].
Proof.
  intros Hpre Hn. revert c. induction pre as [|o pre IH]; intros c; simpl.
  - replace ((n <? 1)%Z || (MAX <? n)%Z) with true; [reflexivity|].
    symmetry. apply orb_true_iff. destruct Hn; [left|right]; apply Z.ltb_lt; lia.
  - assert (IH' := IH (fun o' H => Hpre o' (or_intror H))).
    destruct (Hpre o (or_introl eq_refl)) as [Hh Ht].
    destruct o; try apply IH'; [|contradiction].
    specialize (Ht n0 eq_refl).
    replace ((n0 <? 1)%Z || (MAX <? n0)%Z) with false; [apply IH'|].
    symmetry. apply orb_false_iff. split; apply Z.ltb_ge; lia.
Qed.

(** Parsing ends in a configuration whenever no [-h] and no out-of-range
    [-t] is met: no other option is checked. *)
Lemma parse_accepts (MAX : Z) (c : config) (args : list opt) :
  (forall o, In o args -> o <> Opt_h /\ (forall m, o = Opt_t m -> (1 <= m <= MAX)%Z)) ->
  exists c', parse_opts MAX c args = inl c'.
Proof.
  revert c. induction args as [|o args IH]; intros c Hargs; simpl.
  - exists c. reflexivity.
  - assert (IH' := fun c' => IH c' (fun o' Ho => Hargs o' (or_intror Ho))).
    destruct (Hargs o (or_introl eq_refl)) as [Hh Ht].
    destruct o; try apply IH'; [|contradiction].
    specialize (Ht n eq_refl).
    replace ((n <? 1)%Z || (MAX <? n)%Z) with false; [apply IH'|].
    symmetry. apply orb_false_iff. split; apply Z.ltb_ge; lia.
Qed.

(** C5 (amended).  The thread count is the one option checked: a [-t]
    value outside [1, MAX_THREADS], met before any [-h], makes the program
    print its error and exit with status 1 during option parsing, with no
    image allocated, no file stored and no child forked.  Every option list
    without [-h] and without such a [-t] is accepted.  Width, height and
    iteration cap are not checked: with one process and one frame, any
    [-W w -H h -m m] (zero or negative included) has the child call
    [initRawImage(w, h)], store the frame and exit 0, and the run ends with
    status 0.  A frame count below 1 has the child store nothing, and the
    run still ends with status 0. *)
Theorem bad_thread_count_rejected (MAX cpus : Z) (fo : string) (pre post : list opt)
    (n : Z) (st : Z -> wait_status) :
  (forall o, In o pre -> o <> Opt_h /\ (forall m, o = Opt_t m -> (1 <= m <= MAX)%Z)) ->
  (n < 1 \/ MAX < n)%Z ->
  main MAX cpus fo (pre ++ Opt_t n :: post) st =
    mkRun [EvStderr (threads_error MAX); EvExit 1] [] /\
  (forall args : list opt,
     (forall o, In o args -> o <> Opt_h /\ (forall m, o = Opt_t m -> (1 <= m <= MAX)%Z)) ->
     exists c, parse_opts MAX (default_config cpus) args = inl c) /\
  (forall w h m : Z,
     children (main MAX cpus fo [Opt_W w; Opt_H h; Opt_m m; Opt_n 1; Opt_p 1] st) =
       [[EvAlloc w h; EvStore fo; EvFree;
         EvStdout ("Generated: mandel0.jpg" ++ nl)%string; EvExit 0]] /\
     last (parent (main MAX cpus fo [Opt_W w; Opt_H h; Opt_m m; Opt_n 1; Opt_p 1] st)) EvFault
       = EvExit 0) /\
  (forall k : Z, (k < 1)%Z ->
     children (main MAX cpus fo [Opt_n k; Opt_p 1] st) = [[EvExit 0]] /\
     last (parent (main MAX cpus fo [Opt_n k; Opt_p 1] st)) EvFault = EvExit 0).
Proof.
  intros Hpre Hn. split.
  { unfold main.
    rewrite (parse_stops_at_bad_thread_count MAX (default_config cpus) pre post n Hpre Hn).
    reflexivity. }
  split; [intros args Hargs; apply parse_accepts; exact Hargs|].
  split; [intros w h m; split; reflexivity|].
  intros k Hk. split; [|reflexivity].
  unfold main. cbn - [zrange frame_loop]. unfold child, frame_range. cbn - [zrange frame_loop].
  rewrite Z.quot_1_r, Z.rem_1_r. change (zrange 0 1) with [0%Z]. cbn [map].
  rewrite Z.mul_0_l, Z.eqb_refl, Z.add_0_l, Z.add_0_r.
  rewrite RangeFacts.zrange_empty by lia. reflexivity.
Qed.

(** C5 refuted as stated: a width of 0, or a frame count of 0, passes.
    With [-W 0 -n 1 -p 1] the child allocates a 0 x 2160 image and stores
    a frame; with [-n 0 -p 1] the run ends with status 0 and no error. *)
Lemma zero_width_and_zero_frames_accepted :
  children (main 20 4 "" [Opt_W 0; Opt_n 1; Opt_p 1] (fun _ => Exited 0)) =
    [[EvAlloc 0 2160; EvStore ""; EvFree;
      EvStdout ("Generated: mandel0.jpg" ++ nl); EvExit 0]]%string /\
  last (parent (main 20 4 "" [Opt_W 0; Opt_n 1; Opt_p 1] (fun _ => Exited 0))) EvFault = EvExit 0 /\
  children (main 20 4 "" [Opt_n 0; Opt_p 1] (fun _ => Exited 0)) = [[EvExit 0]] /\
  last (parent (main 20 4 "" [Opt_n 0; Opt_p 1] (fun _ => Exited 0))) EvFault = EvExit 0.
Proof. repeat split; reflexivity. Qed.

End MainFacts.

(* ------------------------------------------------------------------ *)
(** ** Instances of the theorems at concrete inputs *)

Module Witnesses.

Lemma iterations_at_point_correct_witness :
  (0 <= 5)%Z /\
  let r := Pixel.iterations_at_point 1%float 0%float 5 in
  (0 <= r <= 5)%Z /\
  (forall k : nat, (Z.of_nat k < r)%Z ->
     Pixel.in_disk (fst (Pixel.orbit 1%float 0%float k)) (snd (Pixel.orbit 1%float 0%float k)) = true) /\
  ((r < 5)%Z ->
     Pixel.in_disk (fst (Pixel.orbit 1%float 0%float (Z.to_nat r)))
                   (snd (Pixel.orbit 1%float 0%float (Z.to_nat r))) = false) /\
  ((4 <? 1 * 1 + 0 * 0)%float = true -> r = 0%Z) /\
  Pixel.iterations_at_point 0%float 0%float 5 = 5%Z.
Proof.
  split; [lia|]. apply (PixelFacts.iterations_at_point_correct 1%float 0%float 5). lia.
Defined.

Lemma bands_partition_witness :
  (1 <= 3 <= 10)%Z /\ (1 <= 3 <= 10)%Z /\
  let im := Render.mkImg 4 10 in
  let band t := Render.thread_data im 0%float 1%float 0%float 1%float 5 3 t in
  (List.concat (map (fun d => zrange (Render.start_row d) (Render.end_row d))
                    (Render.threads im 0%float 1%float 0%float 1%float 5 3)) = zrange 0 10 /\
   Render.start_row (band 0%Z) = 0%Z /\
   (forall t, (0 <= t < 3 - 1)%Z ->
      Render.end_row (band t) = Render.start_row (band (t + 1)%Z) /\
      (Render.end_row (band t) - Render.start_row (band t) = Z.quot 10 3)%Z) /\
   Render.end_row (band (3 - 1)%Z) = 10%Z /\
   (Render.end_row (band (3 - 1)%Z) - Render.start_row (band (3 - 1)%Z)
      = Z.quot 10 3 + Z.rem 10 3)%Z) /\
  (List.concat (map (fun p => zrange (fst (Main.frame_range 10 3 p)) (snd (Main.frame_range 10 3 p)))
                    (zrange 0 3)) = zrange 0 10 /\
   fst (Main.frame_range 10 3 0) = 0%Z /\
   (forall p, (0 <= p < 3 - 1)%Z ->
      snd (Main.frame_range 10 3 p) = fst (Main.frame_range 10 3 (p + 1)) /\
      (snd (Main.frame_range 10 3 p) - fst (Main.frame_range 10 3 p) = Z.quot 10 3)%Z) /\
   snd (Main.frame_range 10 3 (3 - 1)) = 10%Z /\
   (snd (Main.frame_range 10 3 (3 - 1)) - fst (Main.frame_range 10 3 (3 - 1))
      = Z.quot 10 3 + Z.rem 10 3)%Z) /\
  map (Main.frame_range 10 3) (zrange 0 3) = [(0, 3); (3, 6); (6, 10)]%Z.
Proof.
  split; [lia|]. split; [lia|].
  apply (PartitionFacts.bands_partition 4 10 3 10 3 0%float 1%float 0%float 1%float 5); lia.
Defined.

Lemma compute_image_correct_witness :
  let im := Render.mkImg 2 2 in
  let b0 : Render.buffer := fun _ => None in
  let b := Render.apply_writes b0 (List.concat (map Render.compute_image_region
             (Render.threads im 0%float 1%float 0%float 1%float 3 2))) in
  (0 <= Render.height im)%Z /\ (1 <= 2)%Z /\
  Render.compute_image im b0 0%float 1%float 0%float 1%float 3 2 b /\
  (forall b1, Render.compute_image im b0 0%float 1%float 0%float 1%float 3 1 b1 ->
     forall k, b k = b1 k) /\
  (forall i j, (0 <= i < Render.width im)%Z -> (0 <= j < Render.height im)%Z ->
     b (i, j) = Some (Pixel.iteration_to_color
       (Pixel.iterations_at_point
          (0 + Pixel.double_of_int i * (1 - 0) / Pixel.double_of_int (Render.width im))%float
          (0 + Pixel.double_of_int j * (1 - 0) / Pixel.double_of_int (Render.height im))%float
          3) 3)).
Proof.
  intros im b0 b.
  assert (Hb : Render.compute_image im b0 0%float 1%float 0%float 1%float 3 2 b).
  { eexists. split; [apply Permutation_refl|]. intros k. reflexivity. }
  split; [simpl; lia|]. split; [lia|]. split; [exact Hb|].
  apply (RenderFacts.compute_image_correct im b0 0%float 1%float 0%float 1%float 3 2 b);
    [simpl; lia|lia|exact Hb].
Defined.

Lemma compute_image_more_threads_than_rows_witness :
  let im := Render.mkImg 2 2 in
  let b0 : Render.buffer := fun _ => None in
  let b := Render.apply_writes b0 (List.concat (map Render.compute_image_region
             (Render.threads im 0%float 1%float 0%float 1%float 3 5))) in
  (0 <= Render.height im < 5)%Z /\
  Render.compute_image im b0 0%float 1%float 0%float 1%float 3 5 b /\
  Z.quot (Render.height im) 5 = 0%Z /\
  (forall t, (0 <= t < 5 - 1)%Z ->
     Render.start_row (Render.thread_data im 0%float 1%float 0%float 1%float 3 5 t) = 0%Z /\
     Render.end_row (Render.thread_data im 0%float 1%float 0%float 1%float 3 5 t) = 0%Z) /\
  Render.start_row (Render.thread_data im 0%float 1%float 0%float 1%float 3 5 (5 - 1)) = 0%Z /\
  Render.end_row (Render.thread_data im 0%float 1%float 0%float 1%float 3 5 (5 - 1)) = Render.height im /\
  (forall b1, Render.compute_image im b0 0%float 1%float 0%float 1%float 3 1 b1 ->
     forall k, b k = b1 k) /\
  (forall i j, (0 <= i < Render.width im)%Z -> (0 <= j < Render.height im)%Z ->
     b (i, j) = Some (Render.pixel_color
       (Render.mkThreadData im 0%float 1%float 0%float 1%float 3 0 0) i j)).
Proof.
  intros im b0 b.
  assert (Hb : Render.compute_image im b0 0%float 1%float 0%float 1%float 3 5 b).
  { eexists. split; [apply Permutation_refl|]. intros k. reflexivity. }
  split; [simpl; lia|]. split; [exact Hb|].
  apply (RenderFacts.compute_image_more_threads_than_rows im b0 0%float 1%float 0%float 1%float 3 5 b);
    [simpl; lia|exact Hb].
Defined.


Lemma child_viewport_not_aspect_corrected_witness :
  Zoom.conforming Zoom.annex_f_pow /\
  (forall (xc yc xs : float) (w h n i : Z),
     let v := Zoom.child_viewport Zoom.annex_f_pow xc yc xs w h n i in
     let s := Zoom.frame_scale Zoom.annex_f_pow xs n i in
     Zoom.xmin v = (xc - s / 2)%float /\ Zoom.xmax v = (xc + s / 2)%float /\
     Zoom.ymin v = (yc - s / 2)%float /\ Zoom.ymax v = (yc + s / 2)%float /\
     (forall w' h' : Z, Zoom.child_viewport Zoom.annex_f_pow xc yc xs w' h' n i = v)) /\
  (let v := Zoom.child_viewport Zoom.annex_f_pow (-0.743643) 0.131825 4 3840 2160 300 0 in
   Zoom.yscale 4 3840 2160 = 2.25%float /\
   Zoom.ymin v = (0.131825 - 4 / 2)%float /\ Zoom.ymax v = (0.131825 + 4 / 2)%float /\
   Zoom.ymin v <> (0.131825 - Zoom.yscale 4 3840 2160 / 2)%float /\
   Zoom.ymax v <> (0.131825 + Zoom.yscale 4 3840 2160 / 2)%float).
Proof.
  split; [exact ZoomFacts.annex_f_pow_conforming|].
  apply (ZoomFacts.child_viewport_not_aspect_corrected Zoom.annex_f_pow
           ZoomFacts.annex_f_pow_conforming).
Defined.

Lemma parent_ignores_child_status_witness :
  let c := Main.set_n (Main.set_p (Main.default_config 4) 3) 10 in
  Main.parse_opts 20 (Main.default_config 4) [Main.Opt_p 3; Main.Opt_n 10] = inl c /\
  Main.preview_final c = false /\ Main.num_processes c <> 0%Z /\
  Main.parent (Main.main 20 4 "" [Main.Opt_p 3; Main.Opt_n 10] (fun _ => Main.Signaled 9)) =
    Main.EvHeader c :: map Main.EvWait (zrange 0 (Main.num_processes c)) ++
    [Main.EvStdout Main.all_generated; Main.EvStdout (Main.ffmpeg_hint (Main.outfile_base c));
     Main.EvExit 0] /\
  (forall st' : Z -> Main.wait_status,
     Main.parent (Main.main 20 4 "" [Main.Opt_p 3; Main.Opt_n 10] st') =
     Main.parent (Main.main 20 4 "" [Main.Opt_p 3; Main.Opt_n 10] (fun _ => Main.Signaled 9))).
Proof.
  intros c.
  assert (Hp : Main.parse_opts 20 (Main.default_config 4) [Main.Opt_p 3; Main.Opt_n 10] = inl c)
    by reflexivity.
  split; [exact Hp|]. split; [reflexivity|]. split; [simpl; lia|].
  apply (MainFacts.parent_ignores_child_status 20 4 "" _ c); [exact Hp|reflexivity|simpl; lia].
Defined.

Lemma bad_thread_count_rejected_witness :
  (forall o, In o [Main.Opt_W 0] ->
     o <> Main.Opt_h /\ (forall m, o = Main.Opt_t m -> (1 <= m <= 20)%Z)) /\
  (21 < 1 \/ 20 < 21)%Z /\
  Main.main 20 4 "" ([Main.Opt_W 0] ++ Main.Opt_t 21 :: []) (fun _ => Main.Exited 0) =
    Main.mkRun [Main.EvStderr (Main.threads_error 20); Main.EvExit 1] [] /\
  (forall args : list Main.opt,
     (forall o, In o args -> o <> Main.Opt_h /\ (forall m, o = Main.Opt_t m -> (1 <= m <= 20)%Z)) ->
     exists c, Main.parse_opts 20 (Main.default_config 4) args = inl c) /\
  (forall w h m : Z,
     Main.children (Main.main 20 4 "" [Main.Opt_W w; Main.Opt_H h; Main.Opt_m m;
                                      Main.Opt_n 1; Main.Opt_p 1] (fun _ => Main.Exited 0)) =
       [[Main.EvAlloc w h; Main.EvStore ""; Main.EvFree;
         Main.EvStdout ("Generated: mandel0.jpg" ++ Main.nl)%string; Main.EvExit 0]] /\
     last (Main.parent (Main.main 20 4 "" [Main.Opt_W w; Main.Opt_H h; Main.Opt_m m;
                                          Main.Opt_n 1; Main.Opt_p 1] (fun _ => Main.Exited 0)))
          Main.EvFault = Main.EvExit 0) /\
  (forall k : Z, (k < 1)%Z ->
     Main.children (Main.main 20 4 "" [Main.Opt_n k; Main.Opt_p 1] (fun _ => Main.Exited 0)) =
       [[Main.EvExit 0]] /\
     last (Main.parent (Main.main 20 4 "" [Main.Opt_n k; Main.Opt_p 1] (fun _ => Main.Exited 0)))
          Main.EvFault = Main.EvExit 0).
Proof.
  assert (Hpre : forall o, In o [Main.Opt_W 0] ->
     o <> Main.Opt_h /\ (forall m, o = Main.Opt_t m -> (1 <= m <= 20)%Z)).
  { intros o [<-|[]]. split; [discriminate|]. intros m E. discriminate. }
  split; [exact Hpre|]. split; [lia|].
  apply (MainFacts.bad_thread_count_rejected 20 4 "" [Main.Opt_W 0] [] 21); [exact Hpre|lia].
Defined.

End Witnesses.

(* ------------------------------------------------------------------ *)
(** ** Further properties: the escape-time cap *)

Module ExtraPixelFacts.
Import Pixel.

(** The three properties of [iterations_at_point] (bounds, orbit inside
    the disk before the result, outside at it below the cap) determine it. *)
Lemma iterations_char (x y : float) (max r : Z) :
  (0 <= max)%Z -> (0 <= r <= max)%Z ->
  (forall k : nat, (Z.of_nat k < r)%Z ->
     in_disk (fst (orbit x y k)) (snd (orbit x y k)) = true) ->
  ((r < max)%Z ->
     in_disk (fst (orbit x y (Z.to_nat r))) (snd (orbit x y (Z.to_nat r))) = false) ->
  iterations_at_point x y max = r.
Proof.
  intros Hmax Hr Hin Hout.
  destruct (PixelFacts.iter_loop_orbit x y max (Z.to_nat max) 0) as [H1 [H2 H3]]; [lia|].
  unfold iterations_at_point. cbn zeta in *. simpl in H1, H2, H3.
  set (r0 := iter_loop (Z.to_nat max) x y (x, y) 0 max) in *.
  destruct (Z.lt_trichotomy r0 r) as [Hlt|[E|Hgt]]; [exfalso|exact E|exfalso].
  - destruct (H3 ltac:(lia)) as [m [Hm Hd]]. rewrite (Hin m) in Hd by lia. discriminate.
  - specialize (Hout ltac:(lia)). rewrite (H2 (Z.to_nat r)) in Hout by lia. discriminate.
Qed.

(** Lowering the cap truncates the escape time: for [0 <= m1 <= m2], the
    count under cap [m1] is the count under cap [m2], cut at [m1]. *)
Theorem iterations_cap_monotone (x y : float) (m1 m2 : Z) :
  (0 <= m1 <= m2)%Z ->
  iterations_at_point x y m1 = Z.min (iterations_at_point x y m2) m1.
Proof.
  intros Hm.
  destruct (PixelFacts.iter_loop_orbit x y m2 (Z.to_nat m2) 0) as [H1 [H2 H3]]; [lia|].
  cbn zeta in *. simpl in H1, H2, H3.
  change (iter_loop (Z.to_nat m2) x y (x, y) 0 m2) with (iterations_at_point x y m2) in *.
  set (r2 := iterations_at_point x y m2) in *.
  apply iterations_char; [lia|lia| |].
  - intros k Hk. apply H2. lia.
  - intros Hlt. replace (Z.min r2 m1) with r2 by lia.
    destruct (H3 ltac:(lia)) as [m [Em Hd]]. rewrite <- Em, Nat2Z.id. exact Hd.
Qed.

End ExtraPixelFacts.

(* ------------------------------------------------------------------ *)
(** ** Further properties: the colour mapper *)

Module ExtraColorFacts.
Import Pixel.

(** Every colour fits in 24 bits. *)
Theorem iteration_to_color_range (iters max : Z) :
  (0 <= iteration_to_color iters max < 2 ^ 24)%Z.
Proof.
  unfold iteration_to_color. destruct (iters =? max)%Z; [lia|].
  pose proof (ColorFacts.channel_range 7 iters).
  pose proof (ColorFacts.channel_range 13 iters).
  pose proof (ColorFacts.channel_range 17 iters).
  rewrite ColorFacts.pack_eq by lia. simpl. lia.
Qed.

(** Black is not reserved for points that reach the cap: a colour is 0
    exactly when [iters = max] or [iters] is a multiple of 256 (7, 13 and
    17 are odd, so each channel vanishes only then). *)
Theorem iteration_to_color_black (iters max : Z) :
  iteration_to_color iters max = 0%Z <-> iters = max \/ (iters mod 256 = 0)%Z.
Proof.
  unfold iteration_to_color. destruct (Z.eqb_spec iters max) as [E|Hne].
  - split; auto.
  - pose proof (ColorFacts.channel_range 7 iters).
    pose proof (ColorFacts.channel_range 13 iters).
    pose proof (ColorFacts.channel_range 17 iters).
    rewrite ColorFacts.pack_eq by lia. rewrite !ColorFacts.channel_eq.
    pose proof (Z.mod_pos_bound (7 * iters) 256).
    pose proof (Z.mod_pos_bound (13 * iters) 256).
    pose proof (Z.mod_pos_bound (17 * iters) 256).
    split.
    + intros Hz. right. assert (H7 : ((7 * iters) mod 256 = 0)%Z) by lia.
      apply Z.mod_divide in H7; [|lia]. destruct H7 as [q Hq].
      apply Z.mod_divide; [lia|]. exists (183 * q - 5 * iters)%Z. lia.
    + intros [E|Hz]; [contradiction|].
      apply Z.mod_divide in Hz; [|lia]. destruct Hz as [q Hq].
      replace (7 * iters)%Z with (7 * q * 256)%Z by lia.
      replace (13 * iters)%Z with (13 * q * 256)%Z by lia.
      replace (17 * iters)%Z with (17 * q * 256)%Z by lia.
      rewrite !Z.mod_mul by lia. reflexivity.
Qed.

End ExtraColorFacts.

(* ------------------------------------------------------------------ *)
(** ** Further properties: where the threads write *)

Module ExtraRenderFacts.
Import RangeFacts Render.

Lemma region_keys (d : ThreadData) (k : Z * Z) (v : Z) :
  In (k, v) (compute_image_region d) ->
  (0 <= fst k < width (img d))%Z /\ (start_row d <= snd k < end_row d)%Z.
Proof.
  unfold compute_image_region. intros H. apply in_flat_map in H.
  destruct H as [j [Hj H]]. apply in_map_iff in H. destruct H as [i [E Hi]].
  injection E as Ek _. subst k. apply in_zrange in Hi. apply in_zrange in Hj.
  simpl. lia.
Qed.

Lemma region_keys_map (d : ThreadData) (k : Z * Z) :
  In k (map fst (compute_image_region d)) ->
  (0 <= fst k < width (img d))%Z /\ (start_row d <= snd k < end_row d)%Z.
Proof.
  intros H. apply in_map_iff in H. destruct H as [[k' v] [E H]]. simpl in E. subst k'.
  exact (region_keys d k v H).
Qed.

(** [compute_image] never writes outside the image: every pixel outside
    [[0, width) x [0, height)] keeps the value it had before. *)
Theorem compute_image_only_inside (im : imgRawImage) (b0 : buffer) (x0 x1 y0 y1 : float)
    (max T : Z) (b : buffer) :
  (0 <= height im)%Z -> (1 <= T)%Z ->
  compute_image im b0 x0 x1 y0 y1 max T b ->
  forall i j, ~ ((0 <= i < width im)%Z /\ (0 <= j < height im)%Z) ->
  b (i, j) = b0 (i, j).
Proof.
  intros Hh HT [ws [Hp Hb]] i j Hout. rewrite Hb. apply RenderFacts.apply_writes_notin.
  intros Hin. apply in_map_iff in Hin. destruct Hin as [[k v] [Ek Hin]]. simpl in Ek. subst k.
  apply (Permutation_in _ Hp) in Hin. apply in_concat in Hin. destruct Hin as [l [Hl Hin]].
  apply in_map_iff in Hl. destruct Hl as [d [<- Hd]].
  apply region_keys in Hin. unfold threads in Hd. apply in_map_iff in Hd.
  destruct Hd as [t [<- Ht]]. apply in_zrange in Ht. simpl in Hin.
  pose proof (Z.quot_pos (height im) T ltac:(lia) ltac:(lia)).
  pose proof (Z.mul_quot_le (height im) T ltac:(lia) ltac:(lia)).
  apply Hout. destruct (Z.eqb_spec t (T - 1)); split; try lia; nia.
Qed.

(** No pixel is written by two threads: the bands of threads [t < t'] have
    no pixel in common, so the concurrent writes never race. *)
Theorem thread_bands_disjoint (im : imgRawImage) (x0 x1 y0 y1 : float) (max T t t' : Z)
    (k : Z * Z) :
  (0 <= height im)%Z -> (0 <= t < t')%Z -> (t' < T)%Z ->
  In k (map fst (compute_image_region (thread_data im x0 x1 y0 y1 max T t))) ->
  ~ In k (map fst (compute_image_region (thread_data im x0 x1 y0 y1 max T t'))).
Proof.
  intros Hh Ht Ht' H1 H2.
  apply region_keys_map in H1. apply region_keys_map in H2. simpl in H1, H2.
  pose proof (Z.quot_pos (height im) T ltac:(lia) ltac:(lia)).
  destruct (Z.eqb_spec t (T - 1)); [lia|]. nia.
Qed.

End ExtraRenderFacts.

(* ------------------------------------------------------------------ *)
(** ** Further properties: the frames' viewports *)

Module ExtraZoomFacts.
Import Zoom.
Local Open Scope float_scope.

(** The preview renders the viewport of the last frame: for a frame count
    in the range of [int] other than [INT_MIN], [num_images - 1] does not
    wrap and the preview's viewport is that of frame [num_images - 1] in a
    child, whatever [pow]. *)
Theorem preview_is_last_frame (pow : float -> float -> float) (xc yc xs : float)
    (w h n : Z) :
  (- 2 ^ 31 < n < 2 ^ 31)%Z ->
  preview_viewport pow xc yc xs n = child_viewport pow xc yc xs w h n (n - 1).
Proof.
  intros Hn. unfold preview_viewport, child_viewport, frame_scale, Pixel.wrap32.
  replace ((n - 1 + 2 ^ 31) mod 2 ^ 32 - 2 ^ 31)%Z with (n - 1)%Z; [reflexivity|].
  rewrite Z.mod_small by lia. lia.
Qed.

(** With [-s 1e-11], the initial scale equal to [final_scale], for any
    [pow] obeying Annex F: [final_scale / xscale = 1.0], so [zoom_factor]
    is exactly [1.0] and every frame's scale is exactly [1e-11], for any
    frame count and frame index. *)
Theorem final_scale_start_is_constant (pow : float -> float -> float)
    (Hpow : conforming pow) :
  forall n i : Z,
    zoom_factor pow final_scale n = 1 /\ frame_scale pow final_scale n i = final_scale.
Proof.
  intros n i. unfold frame_scale, zoom_factor.
  replace (final_scale / final_scale) with 1 by reflexivity.
  rewrite !(ZoomFacts.pow_1_l pow Hpow). split; [reflexivity|].
  apply ZoomFacts.mul_1_r.
Qed.

End ExtraZoomFacts.

(* ------------------------------------------------------------------ *)
(** ** Further properties: options, file names and the processes *)

Module ExtraMainFacts.
Import RangeFacts Main.

Lemma substring_length (n : nat) (s : string) : (length (substring 0 n s) <= n)%nat.
Proof.
  revert s. induction n as [|n IH]; intros [|ch s]; simpl; try lia.
  specialize (IH s). lia.
Qed.

Lemma string_length_app (s1 s2 : string) :
  length (s1 ++ s2) = (length s1 + length s2)%nat.
Proof. induction s1 as [|ch s1 IH]; simpl; [reflexivity|]. rewrite IH. reflexivity. Qed.

Lemma string_app_inv_l (s a b : string) : (s ++ a)%string = (s ++ b)%string -> a = b.
Proof.
  induction s as [|ch s IH]; simpl; [auto|]. intros E. injection E. exact IH.
Qed.

Lemma list_ascii_of_string_app (s1 s2 : string) :
  list_ascii_of_string (s1 ++ s2) = (list_ascii_of_string s1 ++ list_ascii_of_string s2)%list.
Proof. induction s1 as [|ch s1 IH]; simpl; [reflexivity|]. rewrite IH. reflexivity. Qed.

Lemma string_app_inv_r (a b t : string) : (a ++ t)%string = (b ++ t)%string -> a = b.
Proof.
  intros E. apply (f_equal list_ascii_of_string) in E.
  rewrite !list_ascii_of_string_app in E. apply app_inv_tail in E.
  rewrite <- (string_of_list_ascii_of_string a), <- (string_of_list_ascii_of_string b), E.
  reflexivity.
Qed.

Lemma dec_value_digits (fuel : nat) (n : Z) (acc : string) :
  (0 <= n < 10 ^ Z.of_nat fuel)%Z ->
  dec_value (digits fuel n acc) 0 = dec_value acc n.
Proof.
  revert n acc. induction fuel as [|fuel IH]; intros n acc Hn.
  - simpl in Hn. replace n with 0%Z by lia. reflexivity.
  - cbn [digits]. destruct (Z.ltb_spec n 10).
    + cbn [dec_value]. unfold digit. rewrite nat_ascii_embedding by lia. f_equal. lia.
    + rewrite Nat2Z.inj_succ, Z.pow_succ_r in Hn by lia.
      rewrite IH by (split; [apply Z.div_pos; lia|apply Z.div_lt_upper_bound; lia]).
      cbn [dec_value]. unfold digit.
      pose proof (Z.mod_pos_bound n 10 ltac:(lia)).
      rewrite nat_ascii_embedding by lia. f_equal.
      pose proof (Z.div_mod n 10 ltac:(lia)). lia.
Qed.

Lemma dec_value_string_of_int (n : Z) :
  (0 <= n < 2 ^ 31)%Z -> dec_value (string_of_int n) 0 = n.
Proof.
  intros Hn. unfold string_of_int. destruct (Z.ltb_spec n 0); [lia|].
  rewrite dec_value_digits; [reflexivity|].
  split; [lia|]. apply (Z.lt_le_trans _ (2 ^ 31)); [lia|].
  apply Z.leb_le. reflexivity.
Qed.

(** Distinct frames get distinct file names: [snprintf("%s%d.jpg")] with
    the same base and two different indices in [[0, 2^31)] gives two
    different strings. *)
Theorem frame_names_distinct (base : string) (i j : Z) :
  (0 <= i < 2 ^ 31)%Z -> (0 <= j < 2 ^ 31)%Z -> i <> j ->
  frame_outfile base i <> frame_outfile base j.
Proof.
  intros Hi Hj Hne E. apply Hne. unfold frame_outfile in E.
  apply string_app_inv_l, string_app_inv_r in E.
  rewrite <- (dec_value_string_of_int i Hi), <- (dec_value_string_of_int j Hj), E.
  reflexivity.
Qed.

Lemma parse_base_length (MAX : Z) (c c' : config) (args : list opt) :
  (length (outfile_base c) <= 255)%nat -> parse_opts MAX c args = inl c' ->
  (length (outfile_base c') <= 255)%nat.
Proof.
  revert c. induction args as [|o args IH]; intros c Hc Hp; simpl in Hp.
  - injection Hp as <-. exact Hc.
  - destruct o; try (eapply IH; [|exact Hp]; exact Hc).
    + eapply IH; [|exact Hp]. apply substring_length.
    + destruct (_ || _)%bool; [discriminate|]. eapply IH; [|exact Hp]. exact Hc.
    + discriminate.
Qed.

(** The [strncpy] into [outfile_base[256]] keeps it at most 255
    characters, whatever the options. *)
Theorem outfile_base_at_most_255 (MAX cpus : Z) (args : list opt) (c : config) :
  parse_opts MAX (default_config cpus) args = inl c ->
  (length (outfile_base c) <= 255)%nat.
Proof. apply parse_base_length. simpl. lia. Qed.

Lemma parse_threads (MAX : Z) (c c' : config) (args : list opt) :
  (1 <= num_threads c <= MAX)%Z -> parse_opts MAX c args = inl c' ->
  (1 <= num_threads c' <= MAX)%Z.
Proof.
  revert c. induction args as [|o args IH]; intros c Hc Hp; simpl in Hp.
  - injection Hp as <-. exact Hc.
  - destruct o; try (eapply IH; [|exact Hp]; exact Hc).
    + destruct ((n <? 1)%Z || (MAX <? n)%Z) eqn:E; [discriminate|].
      apply orb_false_iff in E. destruct E as [E1 E2].
      apply Z.ltb_ge in E1. apply Z.ltb_ge in E2.
      eapply IH; [|exact Hp]. simpl. lia.
    + discriminate.
Qed.

(** Every configuration the option loop accepts has a thread count in
    [[1, MAX_THREADS]] (the default 1 included, for [MAX_THREADS >= 1]). *)
Theorem accepted_thread_count_in_range (MAX cpus : Z) (args : list opt) (c : config) :
  (1 <= MAX)%Z -> parse_opts MAX (default_config cpus) args = inl c ->
  (1 <= num_threads c <= MAX)%Z.
Proof. intros HM. apply parse_threads. simpl. lia. Qed.

Lemma parse_stops_at_help (MAX : Z) (c : config) (pre post : list opt) :
  (forall o, In o pre -> o <> Opt_h /\ (forall m, o = Opt_t m -> (1 <= m <= MAX)%Z)) ->
  parse_opts MAX c (pre ++ Opt_h :: post) = inr (show_help ++ [EvExit 1]).
Proof.
  intros Hpre. revert c. induction pre as [|o pre IH]; intros c; simpl; [reflexivity|].
  assert (IH' := IH (fun o' H => Hpre o' (or_intror H))).
  destruct (Hpre o (or_introl eq_refl)) as [Hh Ht].
  destruct o; try apply IH'; [|contradiction].
  specialize (Ht n eq_refl).
  replace ((n <? 1)%Z || (MAX <? n)%Z) with false; [apply IH'|].
  symmetry. apply orb_false_iff. split; apply Z.ltb_ge; lia.
Qed.

(** [-h], met before any rejected [-t], prints the usage text and exits
    with status 1, forking nothing and storing nothing. *)
Theorem help_exits_1 (MAX cpus : Z) (fo : string) (pre post : list opt)
    (st : Z -> wait_status) :
  (forall o, In o pre -> o <> Opt_h /\ (forall m, o = Opt_t m -> (1 <= m <= MAX)%Z)) ->
  main MAX cpus fo (pre ++ Opt_h :: post) st = mkRun (show_help ++ [EvExit 1]) [].
Proof.
  intros Hpre. unfold main. rewrite (parse_stops_at_help MAX (default_config cpus) pre post Hpre).
  reflexivity.
Qed.

(** With [-P], no child is forked and the parent renders one image, stored
    under [outfile_base + "_final.jpg"], when that name is shorter than 256
    characters ([outfile_base] of at most 245); a longer base (246 to 255
    characters) makes it print an error and exit with [EXIT_FAILURE]
    before allocating anything. *)
Theorem preview_branch (MAX cpus : Z) (fo : string) (args : list opt) (c : config)
    (st : Z -> wait_status) :
  parse_opts MAX (default_config cpus) args = inl c -> preview_final c = true ->
  let name := (outfile_base c ++ "_final.jpg")%string in
  children (main MAX cpus fo args st) = [] /\
  ((length (outfile_base c) <= 245)%nat ->
     parent (main MAX cpus fo args st) =
     [EvAlloc (image_width c) (image_height c); EvStore name; EvFree;
      EvStdout ("Generated final preview image: " ++ name ++ nl)%string; EvExit 0]) /\
  ((246 <= length (outfile_base c))%nat ->
     parent (main MAX cpus fo args st) =
     [EvStderr ("Error: Output filename too long. Truncating." ++ nl)%string;
      EvExit EXIT_FAILURE]).
Proof.
  intros Hp Hpv name. unfold main. rewrite Hp, Hpv. simpl children. simpl parent.
  unfold preview. fold name.
  assert (Hl : length name = (length (outfile_base c) + 10)%nat)
    by (unfold name; rewrite string_length_app; reflexivity).
  rewrite Hl. split; [reflexivity|]. split; intros H.
  - destruct (Z.leb_spec 256 (Z.of_nat (length (outfile_base c) + 10))); [lia|reflexivity].
  - destruct (Z.leb_spec 256 (Z.of_nat (length (outfile_base c) + 10))); [reflexivity|lia].
Qed.

(** The events of one frame rendered by a child. *)
Lemma frame_loop_cons_short (fo : string) (c : config) (i : Z) (rest : list Z) :
  (length (frame_outfile (outfile_base c) i) < 256)%nat ->
  frame_loop fo c (i :: rest) =
  EvAlloc (image_width c) (image_height c) :: EvStore fo :: EvFree
  :: EvStdout ("Generated: " ++ frame_outfile (outfile_base c) i ++ nl)%string
  :: frame_loop fo c rest.
Proof.
  intros H. simpl.
  destruct (Z.leb_spec 256 (Z.of_nat (length (frame_outfile (outfile_base c) i)))); [lia|].
  reflexivity.
Qed.

(** A child stops at the first frame whose name does not fit in
    [outfile[256]]: the frames before it are rendered, stored and
    announced, then it prints the error and exits with [EXIT_FAILURE];
    no later frame is rendered. *)
Theorem child_stops_at_long_name (fo : string) (c : config) (pre : list Z) (i : Z)
    (post : list Z) :
  (forall k, In k pre -> (length (frame_outfile (outfile_base c) k) < 256)%nat) ->
  (256 <= length (frame_outfile (outfile_base c) i))%nat ->
  frame_loop fo c (pre ++ i :: post) =
  flat_map (fun k => [EvAlloc (image_width c) (image_height c); EvStore fo; EvFree;
                      EvStdout ("Generated: " ++ frame_outfile (outfile_base c) k ++ nl)%string])
           pre ++
  [EvStderr ("Error: Output filename too long for buffer. Truncating." ++ nl)%string;
   EvExit EXIT_FAILURE].
Proof.
  intros Hpre Hi. induction pre as [|k pre IH]; simpl app.
  - simpl. destruct (Z.leb_spec 256 (Z.of_nat (length (frame_outfile (outfile_base c) i))));
      [reflexivity|lia].
  - rewrite frame_loop_cons_short by (apply Hpre; left; reflexivity).
    rewrite IH by (intros k' Hk'; apply Hpre; right; exact Hk'). reflexivity.
Qed.

(** The standard output of a process. *)
Lemma frame_loop_stdout (fo : string) (c : config) (ks : list Z) :
  (forall k, In k ks -> (length (frame_outfile (outfile_base c) k) < 256)%nat) ->
  flat_map (fun ev => match ev with EvStdout s => [s] | _ => [] end) (frame_loop fo c ks) =
  map (fun k => ("Generated: " ++ frame_outfile (outfile_base c) k ++ nl)%string) ks /\
  last (frame_loop fo c ks) EvFault = EvExit 0.
Proof.
  induction ks as [|k ks IH]; intros Hks; [split; reflexivity|].
  rewrite frame_loop_cons_short by (apply Hks; left; reflexivity).
  destruct IH as [IH1 IH2]; [intros k' Hk'; apply Hks; right; exact Hk'|].
  split.
  - simpl. rewrite IH1. reflexivity.
  - rewrite <- IH2. destruct (frame_loop fo c ks) eqn:E; [discriminate|reflexivity].
Qed.

Lemma frames_concat (N P : Z) :
  (0 <= N)%Z -> (1 <= P)%Z ->
  List.concat (map (fun p => zrange (fst (frame_range N P p)) (snd (frame_range N P p)))
                   (zrange 0 P)) = zrange 0 N.
Proof.
  intros HN HP.
  rewrite (map_ext (fun p => zrange (fst (frame_range N P p)) (snd (frame_range N P p)))
             (fun p => zrange (p * Z.quot N P)
                         (if (p =? P - 1)%Z then N else (p + 1) * Z.quot N P)))
    by (intros p; rewrite PartitionFacts.frame_range_eq by lia; reflexivity).
  apply partition_concat; lia.
Qed.

(** When every frame name fits, the children together announce each frame
    [0 .. num_images-1] exactly once, in order of frame index, and each of
    them exits with status 0, however many processes share the frames. *)
Theorem children_generate_each_frame_once (MAX cpus : Z) (fo : string) (args : list opt)
    (c : config) (st : Z -> wait_status) :
  parse_opts MAX (default_config cpus) args = inl c -> preview_final c = false ->
  (1 <= num_processes c)%Z -> (0 <= num_images c)%Z ->
  (forall i, (0 <= i < num_images c)%Z ->
     (length (frame_outfile (outfile_base c) i) < 256)%nat) ->
  flat_map (fun ev => match ev with EvStdout s => [s] | _ => [] end)
           (List.concat (children (main MAX cpus fo args st))) =
  map (fun i => ("Generated: " ++ frame_outfile (outfile_base c) i ++ nl)%string)
      (zrange 0 (num_images c)) /\
  Forall (fun ev => last ev EvFault = EvExit 0) (children (main MAX cpus fo args st)).
Proof.
  intros Hp Hpv HP HN Hshort. unfold main. rewrite Hp, Hpv.
  destruct (Z.eqb_spec (num_processes c) 0); [lia|]. simpl children.
  set (R := fun p => zrange (fst (frame_range (num_images c) (num_processes c) p))
                            (snd (frame_range (num_images c) (num_processes c) p))).
  assert (HR : forall p, In p (zrange 0 (num_processes c)) -> forall k, In k (R p) ->
            (length (frame_outfile (outfile_base c) k) < 256)%nat).
  { intros p Hpin k Hk. apply Hshort. apply in_zrange.
    rewrite <- (frames_concat (num_images c) (num_processes c) HN HP).
    apply in_concat. exists (R p). split; [|exact Hk].
    apply in_map_iff. exists p. split; [reflexivity|exact Hpin]. }
  split.
  - rewrite flat_map_concat, map_map.
    rewrite (map_ext_in (fun p => flat_map (fun ev => match ev with EvStdout s => [s] | _ => [] end)
                                           (child fo c p))
               (fun p => map (fun k => ("Generated: " ++ frame_outfile (outfile_base c) k ++ nl)%string)
                             (R p)))
      by (intros p Hpin; apply (frame_loop_stdout fo c (R p) (HR p Hpin))).
    rewrite <- map_map, <- concat_map. f_equal.
    apply frames_concat; assumption.
  - apply Forall_forall. intros ev Hev. apply in_map_iff in Hev.
    destruct Hev as [p [<- Hpin]]. apply (frame_loop_stdout fo c (R p) (HR p Hpin)).
Qed.

Lemma digits_length (fuel : nat) (n d : Z) (acc : string) :
  (1 <= d)%Z -> (0 <= n < 10 ^ d)%Z ->
  (Z.of_nat (length (digits fuel n acc)) <= d + Z.of_nat (length acc))%Z.
Proof.
  revert n d acc. induction fuel as [|fuel IH]; intros n d acc Hd Hn; cbn [digits]; [lia|].
  destruct (Z.ltb_spec n 10).
  - cbn [String.length]. lia.
  - assert (Hd2 : (2 <= d)%Z).
    { destruct (Z.eq_dec d 1) as [->|]; [simpl in Hn; lia|lia]. }
    assert (Hp : (10 ^ d = 10 * 10 ^ (d - 1))%Z)
      by (rewrite <- Z.pow_succ_r by lia; f_equal; lia).
    pose proof (IH (n / 10) (d - 1) (String (digit (n mod 10)) acc)) as Hl.
    cbn [String.length] in Hl. rewrite Nat2Z.inj_succ in Hl.
    assert (0 <= n / 10 < 10 ^ (d - 1))%Z.
    { split; [apply Z.div_pos; lia|apply Z.div_lt_upper_bound; lia]. }
    specialize (Hl ltac:(lia) ltac:(lia)). lia.
Qed.

(** Every frame name fits in [outfile[256]] when the base has at most 241
    characters: an [int] frame index has at most 10 digits. *)
Theorem frame_name_fits (base : string) (i : Z) :
  (length base <= 241)%nat -> (0 <= i < 2 ^ 31)%Z ->
  (length (frame_outfile base i) < 256)%nat.
Proof.
  intros Hb Hi. unfold frame_outfile, string_of_int.
  destruct (Z.ltb_spec i 0); [lia|].
  rewrite !string_length_app.
  pose proof (digits_length 64 i 10 "" ltac:(lia)) as Hd.
  assert (H10 : (2 ^ 31 <= 10 ^ 10)%Z) by (apply Z.leb_le; reflexivity).
  specialize (Hd ltac:(lia)).
  change (String.length ".jpg") with 4%nat. change (String.length "") with 0%nat in Hd. lia.
Qed.

(** With more processes than frames ([0 <= num_images < num_processes]),
    [images_per_process] is 0: every child but the last gets no frame and
    exits with status 0 at once, and the last child renders all of them. *)
Theorem more_processes_than_frames (fo : string) (c : config) :
  (0 <= num_images c < num_processes c)%Z ->
  (forall p, (0 <= p < num_processes c - 1)%Z -> child fo c p = [EvExit 0]) /\
  frame_range (num_images c) (num_processes c) (num_processes c - 1) = (0%Z, num_images c) /\
  child fo c (num_processes c - 1) = frame_loop fo c (zrange 0 (num_images c)).
Proof.
  intros H. assert (Hq : Z.quot (num_images c) (num_processes c) = 0%Z)
    by (apply Z.quot_small; lia).
  assert (Hr : frame_range (num_images c) (num_processes c) (num_processes c - 1)
               = (0%Z, num_images c)).
  { rewrite PartitionFacts.frame_range_eq, Hq, Z.eqb_refl by lia. f_equal. lia. }
  split; [|split; [exact Hr|]].
  - intros p Hp. unfold child. rewrite PartitionFacts.frame_range_eq, Hq by lia.
    destruct (Z.eqb_spec p (num_processes c - 1)); [lia|].
    simpl. rewrite zrange_empty by lia. reflexivity.
  - unfold child. rewrite Hr. reflexivity.
Qed.

End ExtraMainFacts.

(* ------------------------------------------------------------------ *)
(** ** Instances of the further properties at concrete inputs *)

Module ExtraWitnesses.

Lemma iterations_cap_monotone_witness :
  (0 <= 1 <= 9)%Z /\
  Pixel.iterations_at_point 1%float 0%float 1 = Z.min (Pixel.iterations_at_point 1%float 0%float 9) 1.
Proof.
  split; [lia|]. apply (ExtraPixelFacts.iterations_cap_monotone 1%float 0%float 1 9). lia.
Defined.

Lemma compute_image_only_inside_witness :
  let im := Render.mkImg 2 2 in
  let b0 : Render.buffer := fun k => if Render.key_eqb k (5, 5) then Some 42%Z else None in
  let b := Render.apply_writes b0 (List.concat (map Render.compute_image_region
             (Render.threads im 0%float 1%float 0%float 1%float 3 2))) in
  (0 <= Render.height im)%Z /\ (1 <= 2)%Z /\
  Render.compute_image im b0 0%float 1%float 0%float 1%float 3 2 b /\
  b (5, 5) = b0 (5, 5).
Proof.
  intros im b0 b.
  assert (Hb : Render.compute_image im b0 0%float 1%float 0%float 1%float 3 2 b).
  { eexists. split; [apply Permutation_refl|]. intros k. reflexivity. }
  split; [simpl; lia|]. split; [lia|]. split; [exact Hb|].
  apply (ExtraRenderFacts.compute_image_only_inside im b0 0%float 1%float 0%float 1%float 3 2 b);
    [simpl; lia|lia|exact Hb|simpl; lia].
Defined.

Lemma thread_bands_disjoint_witness :
  let im := Render.mkImg 4 10 in
  (0 <= Render.height im)%Z /\ (0 <= 0 < 2)%Z /\ (2 < 3)%Z /\
  In (1, 2)%Z (map fst (Render.compute_image_region
                 (Render.thread_data im 0%float 1%float 0%float 1%float 1 3 0))) /\
  ~ In (1, 2)%Z (map fst (Render.compute_image_region
                   (Render.thread_data im 0%float 1%float 0%float 1%float 1 3 2))).
Proof.
  intros im.
  assert (Hin : In (1, 2)%Z (map fst (Render.compute_image_region
                  (Render.thread_data im 0%float 1%float 0%float 1%float 1 3 0)))).
  { vm_compute. repeat (first [left; reflexivity | right]). }
  split; [simpl; lia|]. split; [lia|]. split; [lia|]. split; [exact Hin|].
  apply (ExtraRenderFacts.thread_bands_disjoint im 0%float 1%float 0%float 1%float 1 3 0 2);
    [simpl; lia|lia|lia|exact Hin].
Defined.

Lemma preview_is_last_frame_witness :
  (- 2 ^ 31 < 300 < 2 ^ 31)%Z /\
  Zoom.preview_viewport Zoom.annex_f_pow (-0.743643) 0.131825 4 300 =
    Zoom.child_viewport Zoom.annex_f_pow (-0.743643) 0.131825 4 3840 2160 300 (300 - 1).
Proof.
  split; [lia|].
  apply (ExtraZoomFacts.preview_is_last_frame Zoom.annex_f_pow (-0.743643) 0.131825 4
           3840 2160 300); lia.
Defined.

Lemma final_scale_start_is_constant_witness :
  Zoom.conforming Zoom.annex_f_pow /\
  Zoom.zoom_factor Zoom.annex_f_pow Zoom.final_scale 300 = 1%float /\
  Zoom.frame_scale Zoom.annex_f_pow Zoom.final_scale 300 299 = Zoom.final_scale.
Proof.
  split; [exact ZoomFacts.annex_f_pow_conforming|].
  apply (ExtraZoomFacts.final_scale_start_is_constant Zoom.annex_f_pow
           ZoomFacts.annex_f_pow_conforming 300 299).
Defined.

Lemma frame_names_distinct_witness :
  (0 <= 1 < 2 ^ 31)%Z /\ (0 <= 10 < 2 ^ 31)%Z /\ (1 <> 10)%Z /\
  Main.frame_outfile "mandel" 1 <> Main.frame_outfile "mandel" 10.
Proof.
  split; [lia|]. split; [lia|]. split; [lia|].
  apply (ExtraMainFacts.frame_names_distinct "mandel" 1 10); lia.
Defined.

Lemma outfile_base_at_most_255_witness :
  let c := Main.set_o (Main.default_config 4) "movie" in
  Main.parse_opts 20 (Main.default_config 4) [Main.Opt_o "movie"] = inl c /\
  (length (Main.outfile_base c) <= 255)%nat.
Proof.
  intros c.
  assert (Hp : Main.parse_opts 20 (Main.default_config 4) [Main.Opt_o "movie"] = inl c)
    by reflexivity.
  split; [exact Hp|]. apply (ExtraMainFacts.outfile_base_at_most_255 20 4 [Main.Opt_o "movie"] c Hp).
Defined.

Lemma accepted_thread_count_in_range_witness :
  let c := Main.set_t (Main.default_config 4) 4 in
  (1 <= 20)%Z /\ Main.parse_opts 20 (Main.default_config 4) [Main.Opt_t 4] = inl c /\
  (1 <= Main.num_threads c <= 20)%Z.
Proof.
  intros c.
  assert (Hp : Main.parse_opts 20 (Main.default_config 4) [Main.Opt_t 4] = inl c)
    by reflexivity.
  split; [lia|]. split; [exact Hp|].
  apply (ExtraMainFacts.accepted_thread_count_in_range 20 4 [Main.Opt_t 4] c); [lia|exact Hp].
Defined.

Lemma help_exits_1_witness :
  (forall o, In o [Main.Opt_W 0] ->
     o <> Main.Opt_h /\ (forall m, o = Main.Opt_t m -> (1 <= m <= 20)%Z)) /\
  Main.main 20 4 "" ([Main.Opt_W 0] ++ Main.Opt_h :: [Main.Opt_t 99]) (fun _ => Main.Exited 0) =
    Main.mkRun (Main.show_help ++ [Main.EvExit 1]) [].
Proof.
  assert (Hpre : forall o, In o [Main.Opt_W 0] ->
     o <> Main.Opt_h /\ (forall m, o = Main.Opt_t m -> (1 <= m <= 20)%Z)).
  { intros o [<-|[]]. split; [discriminate|]. intros m E. discriminate. }
  split; [exact Hpre|].
  apply (ExtraMainFacts.help_exits_1 20 4 "" [Main.Opt_W 0] [Main.Opt_t 99]). exact Hpre.
Defined.

Lemma preview_branch_witness :
  let c := Main.set_P (Main.default_config 4) in
  let name := (Main.outfile_base c ++ "_final.jpg")%string in
  Main.parse_opts 20 (Main.default_config 4) [Main.Opt_P] = inl c /\
  Main.preview_final c = true /\
  Main.children (Main.main 20 4 "" [Main.Opt_P] (fun _ => Main.Exited 0)) = [] /\
  ((length (Main.outfile_base c) <= 245)%nat ->
     Main.parent (Main.main 20 4 "" [Main.Opt_P] (fun _ => Main.Exited 0)) =
     [Main.EvAlloc (Main.image_width c) (Main.image_height c); Main.EvStore name; Main.EvFree;
      Main.EvStdout ("Generated final preview image: " ++ name ++ Main.nl)%string; Main.EvExit 0]) /\
  ((246 <= length (Main.outfile_base c))%nat ->
     Main.parent (Main.main 20 4 "" [Main.Opt_P] (fun _ => Main.Exited 0)) =
     [Main.EvStderr ("Error: Output filename too long. Truncating." ++ Main.nl)%string;
      Main.EvExit Main.EXIT_FAILURE]).
Proof.
  intros c name.
  assert (Hp : Main.parse_opts 20 (Main.default_config 4) [Main.Opt_P] = inl c) by reflexivity.
  split; [exact Hp|]. split; [reflexivity|].
  apply (ExtraMainFacts.preview_branch 20 4 "" [Main.Opt_P] c); [exact Hp|reflexivity].
Defined.

Lemma child_stops_at_long_name_witness :
  let c := Main.set_o (Main.default_config 4)
             (string_of_list_ascii (repeat "a"%char 250)) in
  (forall k, In k [0; 5]%Z -> (length (Main.frame_outfile (Main.outfile_base c) k) < 256)%nat) /\
  (256 <= length (Main.frame_outfile (Main.outfile_base c) 10))%nat /\
  Main.frame_loop "" c ([0; 5] ++ 10 :: [11])%Z =
  flat_map (fun k => [Main.EvAlloc (Main.image_width c) (Main.image_height c); Main.EvStore "";
                      Main.EvFree;
                      Main.EvStdout ("Generated: " ++ Main.frame_outfile (Main.outfile_base c) k
                                     ++ Main.nl)%string])
           [0; 5]%Z ++
  [Main.EvStderr ("Error: Output filename too long for buffer. Truncating." ++ Main.nl)%string;
   Main.EvExit Main.EXIT_FAILURE].
Proof.
  intros c.
  assert (Hpre : forall k, In k [0; 5]%Z ->
            (length (Main.frame_outfile (Main.outfile_base c) k) < 256)%nat).
  { intros k [<-|[<-|[]]]; vm_compute; lia. }
  assert (Hi : (256 <= length (Main.frame_outfile (Main.outfile_base c) 10))%nat)
    by (vm_compute; lia).
  split; [exact Hpre|]. split; [exact Hi|].
  apply (ExtraMainFacts.child_stops_at_long_name "" c [0; 5]%Z 10 [11]%Z); [exact Hpre|exact Hi].
Defined.

Lemma children_generate_each_frame_once_witness :
  let c := Main.set_p (Main.set_n (Main.default_config 4) 10) 3 in
  let args := [Main.Opt_n 10; Main.Opt_p 3] in
  Main.parse_opts 20 (Main.default_config 4) args = inl c /\
  Main.preview_final c = false /\ (1 <= Main.num_processes c)%Z /\ (0 <= Main.num_images c)%Z /\
  (forall i, (0 <= i < Main.num_images c)%Z ->
     (length (Main.frame_outfile (Main.outfile_base c) i) < 256)%nat) /\
  flat_map (fun ev => match ev with Main.EvStdout s => [s] | _ => [] end)
           (List.concat (Main.children (Main.main 20 4 "" args (fun _ => Main.Exited 0)))) =
  map (fun i => ("Generated: " ++ Main.frame_outfile (Main.outfile_base c) i ++ Main.nl)%string)
      (zrange 0 (Main.num_images c)) /\
  Forall (fun ev => last ev Main.EvFault = Main.EvExit 0)
         (Main.children (Main.main 20 4 "" args (fun _ => Main.Exited 0))).
Proof.
  intros c args.
  assert (Hp : Main.parse_opts 20 (Main.default_config 4) args = inl c) by reflexivity.
  assert (Hs : forall i, (0 <= i < Main.num_images c)%Z ->
            (length (Main.frame_outfile (Main.outfile_base c) i) < 256)%nat).
  { intros i Hi. assert (Hin : In i (zrange 0 10)) by (apply RangeFacts.in_zrange; exact Hi).
    vm_compute in Hin.
    repeat (destruct Hin as [<-|Hin]; [vm_compute; lia|]). destruct Hin. }
  split; [exact Hp|]. split; [reflexivity|]. split; [simpl; lia|]. split; [simpl; lia|].
  split; [exact Hs|].
  apply (ExtraMainFacts.children_generate_each_frame_once 20 4 "" args c);
    [exact Hp|reflexivity|simpl; lia|simpl; lia|exact Hs].
Defined.

Lemma frame_name_fits_witness :
  (length "mandel" <= 241)%nat /\ (0 <= 2147483647 < 2 ^ 31)%Z /\
  (length (Main.frame_outfile "mandel" 2147483647) < 256)%nat.
Proof.
  split; [simpl; lia|]. split; [lia|].
  apply (ExtraMainFacts.frame_name_fits "mandel" 2147483647); [simpl; lia|lia].
Defined.

Lemma more_processes_than_frames_witness :
  let c := Main.set_p (Main.set_n (Main.default_config 4) 2) 5 in
  (0 <= Main.num_images c < Main.num_processes c)%Z /\
  (forall p, (0 <= p < Main.num_processes c - 1)%Z -> Main.child "" c p = [Main.EvExit 0]) /\
  Main.frame_range (Main.num_images c) (Main.num_processes c) (Main.num_processes c - 1)
    = (0%Z, Main.num_images c) /\
  Main.child "" c (Main.num_processes c - 1) = Main.frame_loop "" c (zrange 0 (Main.num_images c)).
Proof.
  intros c. split; [simpl; lia|].
  apply (ExtraMainFacts.more_processes_than_frames "" c). simpl; lia.
Defined.

End ExtraWitnesses.
